(** * The multi-tenant webhook and scoring core of bot.py

    A shallow embedding of the database helpers, the label scorer, the
    registration command, the leaderboard query and the Flask webhook handler
    of [src/bot.py], with the properties of their specification.

    Conventions of the embedding.
    - A Python [str] is a [string]: each character is a code point below 256.
      On that range the character classes below agree with Python's
      [re] module and with [str.lower]; texts with characters beyond it
      are outside the statements.
    - A Python [bytes] is a [list byte].
    - Python integers are [Z].
    - A call that can raise or abort returns a [result].
    - The tables [repositories] and [scores] are lists of rows in insertion
      order; a query is a function of the list. *)

From Stdlib Require Import ZArith List Bool Lia.
From Stdlib Require Import Strings.String Strings.Ascii Strings.Byte.
From Stdlib Require Import Numbers.DecimalString.
From Stdlib Require Import Sorting.Sorted Sorting.Permutation.
Import ListNotations.

Set Warnings "-register-all".

Open Scope string_scope.
Open Scope Z_scope.

(** ** Results of fallible code *)

(** The Python exceptions the modelled code can raise. *)
Inductive exn : Type :=
| KeyError
| TypeError
| AttributeError
| ValueError
| ConnectionError
| DatabaseError.

(** [Ok a]: normal completion; [Abort c]: Flask's [abort(c)], an HTTP error
    response with status [c]; [Raise e]: an exception nothing catches. *)
Inductive result (A : Type) : Type :=
| Ok (a : A)
| Abort (code : Z)
| Raise (e : exn).

Arguments Ok {A} a.
Arguments Abort {A} code.
Arguments Raise {A} e.

Definition bind {A B : Type} (m : result A) (k : A -> result B) : result B :=
  match m with
  | Ok a => k a
  | Abort c => Abort c
  | Raise e => Raise e
  end.

Notation "x <- m ;; k" := (bind m (fun x => k))
  (at level 61, m at next level, right associativity).

(** ** Python values obtained from JSON *)

(** Numbers are integers. A float would behave as an integer does wherever
    the code looks at one: by its truth value, and as something that is
    neither a dict nor a string. *)
Inductive pyval : Type :=
| PNone
| PBool (b : bool)
| PInt (z : Z)
| PStr (s : string)
| PList (l : list pyval)
| PDict (kvs : list (string * pyval)).

Fixpoint assoc {A : Type} (k : string) (kvs : list (string * A)) : option A :=
  match kvs with
  | [] => None
  | (k', v) :: rest => if String.eqb k k' then Some v else assoc k rest
  end.

(** [d.get(k)]: only a dict has the method. *)
Definition py_get (d : pyval) (k : string) : result pyval :=
  match d with
  | PDict kvs =>
      match assoc k kvs with
      | Some v => Ok v
      | None => Ok PNone
      end
  | _ => Raise AttributeError
  end.

(** [d[k]] with a string key [k]. *)
Definition py_getitem (d : pyval) (k : string) : result pyval :=
  match d with
  | PDict kvs =>
      match assoc k kvs with
      | Some v => Ok v
      | None => Raise KeyError
      end
  | _ => Raise TypeError
  end.

(** Truth value of an object, as [if] and [and] and [or] test it. *)
Definition py_truthy (v : pyval) : bool :=
  match v with
  | PNone => false
  | PBool b => b
  | PInt z => negb (z =? 0)
  | PStr s => negb (String.eqb s "")
  | PList l => match l with [] => false | _ => true end
  | PDict kvs => match kvs with [] => false | _ => true end
  end.

(** [v == s] for a string literal [s]. *)
Definition py_eq_str (v : pyval) (s : string) : bool :=
  match v with
  | PStr s' => String.eqb s' s
  | _ => false
  end.

(** Iteration, as a comprehension does it: a list gives its items, a dict
    its keys, a string its characters; nothing else is iterable. *)
Definition py_iter (v : pyval) : result (list pyval) :=
  match v with
  | PList l => Ok l
  | PDict kvs => Ok (map (fun kv => PStr (fst kv)) kvs)
  | PStr s => Ok (map (fun c => PStr (String c "")) (list_ascii_of_string s))
  | _ => Raise TypeError
  end.

(** ** Characters and strings *)

Definition code (c : ascii) : N := N_of_ascii c.

Definition in_range (lo hi : N) (c : ascii) : bool :=
  ((lo <=? code c) && (code c <=? hi))%N.

(** [\d] of [re] on a [str] pattern: a decimal digit; below 256 these are
    [0] to [9]. *)
Definition is_digit (c : ascii) : bool := in_range 48 57 c.

(** [\s] of [re] on a [str] pattern: below 256 these are tab to carriage
    return, the four separators 0x1c to 0x1f, the space, 0x85 and 0xa0. *)
Definition is_space (c : ascii) : bool :=
  in_range 9 13 c || in_range 28 31 c
  || (code c =? 32)%N || (code c =? 133)%N || (code c =? 160)%N.

(** [str.lower] on one character: the letters [A] to [Z] and the capital
    letters of Latin-1 (0xc0 to 0xde, without the multiplication sign). *)
Definition lower_char (c : ascii) : ascii :=
  if in_range 65 90 c
     || (in_range 192 222 c && negb (code c =? 215)%N)
  then ascii_of_N (code c + 32)
  else c.

Definition lower_list (l : list ascii) : list ascii := map lower_char l.

Definition py_lower (s : string) : string :=
  string_of_list_ascii (lower_list (list_ascii_of_string s)).

Definition is_ascii_char (c : ascii) : bool := (code c <? 128)%N.

Definition is_ascii (s : string) : bool :=
  forallb is_ascii_char (list_ascii_of_string s).

(** [str(n)] for an integer. *)
Definition str_of_Z (z : Z) : string := NilEmpty.string_of_int (Z.to_int z).

(** ** The database *)

(** A row of [repositories]. *)
Record repo_row : Type := mk_repo {
  r_id : Z;
  r_guild_id : Z;
  r_repo_name : string;
  r_webhook_secret : string;
  r_channel_id : Z;
  r_admin_user_id : Z
}.

(** A row of [scores]. *)
Record score_row : Type := mk_score {
  s_repo_id : Z;
  s_github_username : string;
  s_points : Z
}.

(** Modelled from the spec: the schema is not in the source. [repositories]
    has a surrogate key [id] assigned at creation, here from the counter
    [repo_seq], and [guild_id] is unique, which [ON CONFLICT (guild_id)]
    needs. *)
Record db : Type := mk_db {
  repositories : list repo_row;
  repo_seq : Z;
  scores : list score_row
}.

Definition init_db : db := mk_db [] 1 [].

Definition set_scores (d : db) (s : list score_row) : db :=
  mk_db (repositories d) (repo_seq d) s.

Definition score_key (repo_id : Z) (username : string) (r : score_row) : bool :=
  (s_repo_id r =? repo_id) && String.eqb (s_github_username r) username.

(** [SELECT points FROM scores WHERE repo_id = %s AND github_username = %s]
    followed by [fetchone()]. *)
Fixpoint select_points (rows : list score_row) (repo_id : Z) (username : string)
  : option Z :=
  match rows with
  | [] => None
  | r :: rest =>
      if score_key repo_id username r then Some (s_points r)
      else select_points rest repo_id username
  end.

(** [UPDATE scores SET points = %s WHERE repo_id = %s AND github_username = %s]. *)
Definition sql_update_points (rows : list score_row) (new_points repo_id : Z)
  (username : string) : list score_row :=
  map (fun r =>
         if score_key repo_id username r
         then mk_score (s_repo_id r) (s_github_username r) new_points
         else r) rows.

(** [INSERT INTO scores (repo_id, github_username, points) VALUES (...)]. *)
Definition sql_insert_score (rows : list score_row) (repo_id : Z)
  (username : string) (points : Z) : list score_row :=
  rows ++ [mk_score repo_id username points].

(** [update_score]: a SELECT, then an UPDATE or an INSERT. It returns
    nothing. *)
Definition update_score (rows : list score_row) (repo_id : Z)
  (username : string) (points_to_add : Z) : list score_row :=
  match select_points rows repo_id username with
  | Some p =>
      let new_points := p + points_to_add in
      sql_update_points rows new_points repo_id username
  | None => sql_insert_score rows repo_id username points_to_add
  end.

(** ** The world outside the process *)

(** What [requests.get] returns: the status and what [response.json()]
    gives, a value or the error of a body that is not JSON. *)
Record http_response : Type := mk_response {
  status_code : Z;
  response_json : result pyval
}.

(** The collaborators the code reaches through libraries. [requests.get]
    either returns a response for a URL or raises (a [ConnectionError] when
    the API cannot be reached); [hmac_sha256 key msg] is the digest
    [hmac.new(key, msg, hashlib.sha256).digest()]. *)
Record world : Type := mk_world {
  requests_get : string -> result http_response;
  hmac_sha256 : list byte -> list byte -> list byte;
  bot_get_channel : Z -> bool;
  railway_public_domain : option string
}.

(** ** The label scorer *)

Fixpoint map_result {A B : Type} (f : A -> result B) (l : list A)
  : result (list B) :=
  match l with
  | [] => Ok []
  | a :: rest =>
      b <- f a ;;
      bs <- map_result f rest ;;
      Ok (b :: bs)
  end.

(** [v.lower()]: a method of [str] only. *)
Definition py_str_lower (v : pyval) : result string :=
  match v with
  | PStr s => Ok (py_lower s)
  | _ => Raise AttributeError
  end.

(** [data.get('labels', [])]. *)
Definition py_get_default (d : pyval) (k : string) (default : pyval)
  : result pyval :=
  match d with
  | PDict kvs =>
      match assoc k kvs with
      | Some v => Ok v
      | None => Ok default
      end
  | _ => Raise AttributeError
  end.

Definition mem (s : string) (set : list string) : bool :=
  existsb (String.eqb s) set.

(** The precedence table on the set of lowered label names. *)
Definition points_of_labels (labels : list string) : Z :=
  if mem "hard" labels then 20
  else if mem "medium" labels then 10
  else if mem "easy" labels then 5
  else 0.

(** [{label['name'].lower() for label in data.get('labels', [])}]. *)
Definition label_names (data : pyval) : result (list string) :=
  labels_v <- py_get_default data "labels" (PList []) ;;
  items <- py_iter labels_v ;;
  map_result (fun label => name <- py_getitem label "name" ;; py_str_lower name)
             items.

Definition issue_url (repo_name : string) (issue_number : Z) : string :=
  "https://api.github.com/repos/" ++ repo_name ++ "/issues/"
    ++ str_of_Z issue_number.

Definition get_points_from_pr_labels (w : world) (repo_name : string)
  (issue_number : Z) : result Z :=
  let url := issue_url repo_name issue_number in
  response <- requests_get w url ;;
  if negb (status_code response =? 200) then Ok 0
  else
    data <- response_json response ;;
    labels <- label_names data ;;
    Ok (points_of_labels labels).

(** ** The closing-keyword pattern *)

(** The alternatives of the pattern, in its order. *)
Definition keywords : list string :=
  ["close"; "closes"; "closed"; "fix"; "fixes"; "fixed";
   "resolve"; "resolves"; "resolved"].

(** A literal under [re.IGNORECASE]: the rest of the text behind it. *)
Fixpoint match_literal (lit text : list ascii) : option (list ascii) :=
  match lit with
  | [] => Some text
  | a :: lit' =>
      match text with
      | c :: text' =>
          if Ascii.eqb (lower_char c) a then match_literal lit' text' else None
      | [] => None
      end
  end.

(** The longest run of digits at the head, and what follows it. *)
Fixpoint span_digits (text : list ascii) : list ascii * list ascii :=
  match text with
  | c :: rest =>
      if is_digit c
      then let (ds, tl) := span_digits rest in (c :: ds, tl)
      else ([], text)
  | [] => ([], [])
  end.

(** [\s#(\d+)]: one white-space character, the hash sign, and the group. *)
Definition match_tail (text : list ascii) : option (list ascii) :=
  match text with
  | ws :: h :: rest =>
      if is_space ws && Ascii.eqb h "#"
      then match fst (span_digits rest) with
           | [] => None
           | ds => Some ds
           end
      else None
  | _ => None
  end.

(** The alternation tried in order at one position; an alternative that
    matches but whose continuation fails gives way to the next. *)
Fixpoint match_alternatives (kws : list string) (text : list ascii)
  : option (list ascii) :=
  match kws with
  | [] => None
  | kw :: kws' =>
      match match_literal (list_ascii_of_string kw) text with
      | Some rest =>
          match match_tail rest with
          | Some ds => Some ds
          | None => match_alternatives kws' text
          end
      | None => match_alternatives kws' text
      end
  end.

Definition match_at (text : list ascii) : option (list ascii) :=
  match_alternatives keywords text.

(** [re.search]: the match at the leftmost position that has one; the
    result is [group(1)]. *)
Fixpoint search_from (text : list ascii) : option (list ascii) :=
  match match_at text with
  | Some ds => Some ds
  | None =>
      match text with
      | [] => None
      | _ :: rest => search_from rest
      end
  end.

Definition re_search (pr_body : string) : option (list ascii) :=
  search_from (list_ascii_of_string pr_body).

Definition digit_value (c : ascii) : Z := Z.of_N (code c) - 48.

(** The decimal value of a run of digits. *)
Definition int_of_digits (ds : list ascii) : Z :=
  fold_left (fun acc c => 10 * acc + digit_value c) ds 0.

(** [sys.int_max_str_digits], as Python 3.11 and later set it. *)
Definition int_max_str_digits : nat := 4300.

(** [int(...)] on a run of digits: the value, or a [ValueError] for more
    digits than the limit, leading zeros counted. *)
Definition py_int (ds : list ascii) : result Z :=
  if Nat.ltb int_max_str_digits (List.length ds) then Raise ValueError
  else Ok (int_of_digits ds).

(** ** Signatures *)

Definition hex_digit (n : N) : ascii :=
  if (n <? 10)%N then ascii_of_N (48 + n) else ascii_of_N (87 + n).

Definition hex_of_byte (b : byte) : list ascii :=
  let n := Byte.to_N b in
  [hex_digit (n / 16)%N; hex_digit (n mod 16)%N].

(** [bytes.hex()], the rendering [hexdigest] and [token_hex] use. *)
Definition hex (bs : list byte) : string :=
  string_of_list_ascii (flat_map hex_of_byte bs).

Definition byte_of_N (n : N) : byte :=
  match Byte.of_N n with
  | Some b => b
  | None => x00
  end.

(** [s.encode('utf-8')] for code points below 256. *)
Definition utf8_char (c : ascii) : list byte :=
  let n := code c in
  if (n <? 128)%N then [byte_of_N n]
  else [byte_of_N (192 + n / 64)%N; byte_of_N (128 + n mod 64)%N].

Definition encode_utf8 (s : string) : list byte :=
  flat_map utf8_char (list_ascii_of_string s).

(** [hmac.compare_digest] on two [str]: a [TypeError] unless both are
    ASCII. *)
Definition compare_digest (a b : string) : result bool :=
  if is_ascii a && is_ascii b then Ok (String.eqb a b) else Raise TypeError.

(** What the provider sends: ['sha256=' + hexdigest]. *)
Definition sign (w : world) (secret : string) (body : list byte) : string :=
  "sha256=" ++ hex (hmac_sha256 w (encode_utf8 secret) body).

(** ** HMAC-SHA256 itself

    The function the library computes (FIPS 180-4 and RFC 2104), to run
    the handler on real digests. Words are numbers below 2^32, bytes
    numbers below 256. *)

Module SHA256.

Definition w32 (x : Z) : Z := x mod 4294967296.

Definition add32 (x y : Z) : Z := w32 (x + y).

Definition rotr (n x : Z) : Z :=
  w32 (Z.lor (Z.shiftr x n) (Z.shiftl x (32 - n))).

Definition xor3 (x y z : Z) : Z := Z.lxor x (Z.lxor y z).

Definition ch (x y z : Z) : Z :=
  Z.lxor (Z.land x y) (Z.land (Z.lxor x 0xffffffff) z).

Definition maj (x y z : Z) : Z :=
  xor3 (Z.land x y) (Z.land x z) (Z.land y z).

Definition big_sigma0 (x : Z) : Z := xor3 (rotr 2 x) (rotr 13 x) (rotr 22 x).
Definition big_sigma1 (x : Z) : Z := xor3 (rotr 6 x) (rotr 11 x) (rotr 25 x).
Definition small_sigma0 (x : Z) : Z :=
  xor3 (rotr 7 x) (rotr 18 x) (Z.shiftr x 3).
Definition small_sigma1 (x : Z) : Z :=
  xor3 (rotr 17 x) (rotr 19 x) (Z.shiftr x 10).

(** The first sixty-four primes. *)
Definition primes : list Z :=
  [2; 3; 5; 7; 11; 13; 17; 19; 23; 29; 31; 37; 41; 43; 47; 53; 59; 61; 67;
   71; 73; 79; 83; 89; 97; 101; 103; 107; 109; 113; 127; 131; 137; 139; 149;
   151; 157; 163; 167; 173; 179; 181; 191; 193; 197; 199; 211; 223; 227;
   229; 233; 239; 241; 251; 257; 263; 269; 271; 277; 281; 283; 293; 307;
   311].

(** The largest [r + k] with [k] below [2 ^ bits] and a cube of at most
    [n], found bit by bit. *)
Fixpoint cube_root (bits : nat) (n r : Z) : Z :=
  match bits with
  | O => r
  | S bits' =>
      let r' := r + 2 ^ Z.of_nat bits' in
      cube_root bits' n (if r' ^ 3 <=? n then r' else r)
  end.

(** The round constants: the first thirty-two bits of the fractional parts
    of the cube roots of the first sixty-four primes. *)
Definition round_constants : list Z :=
  Eval vm_compute in
    map (fun p => cube_root 40 (p * 2 ^ 96) 0 mod 2 ^ 32) primes.

(** The initial hash: the first thirty-two bits of the fractional parts of
    the square roots of the first eight primes. *)
Definition initial_hash : list Z :=
  Eval vm_compute in
    map (fun p => Z.sqrt (p * 2 ^ 64) mod 2 ^ 32) (firstn 8 primes).

(** Big-endian bytes of a number, [n] of them. *)
Fixpoint be_bytes (n : nat) (x : Z) : list Z :=
  match n with
  | O => []
  | S n' => (Z.shiftr x (8 * Z.of_nat n')) mod 256 :: be_bytes n' x
  end.

(** The message, the bit 1, zeros up to 56 modulo 64, and the length in
    bits on eight bytes. *)
Definition pad (msg : list Z) : list Z :=
  let len := Z.of_nat (List.length msg) in
  let zeros := Z.to_nat ((55 - len) mod 64) in
  (msg ++ 0x80 :: repeat 0 zeros ++ be_bytes 8 (8 * len))%list.

Fixpoint words (bytes : list Z) : list Z :=
  match bytes with
  | b0 :: b1 :: b2 :: b3 :: rest =>
      (((b0 * 256 + b1) * 256 + b2) * 256 + b3) :: words rest
  | _ => []
  end.

(** The message schedule: [n] further words from the sixteen before. *)
Fixpoint schedule (n : nat) (window : list Z) : list Z :=
  match n with
  | O => []
  | S n' =>
      let w :=
        add32 (add32 (small_sigma1 (nth 14 window 0)) (nth 9 window 0))
              (add32 (small_sigma0 (nth 1 window 0)) (nth 0 window 0)) in
      w :: schedule n' (tl window ++ [w])%list
  end.

Definition round (state : list Z) (kw : Z * Z) : list Z :=
  match state with
  | [a; b; c; d; e; f; g; h] =>
      let t1 :=
        add32 (add32 (add32 h (big_sigma1 e)) (ch e f g))
              (add32 (fst kw) (snd kw)) in
      let t2 := add32 (big_sigma0 a) (maj a b c) in
      [add32 t1 t2; a; b; c; add32 d t1; e; f; g]
  | _ => state
  end.

(** One block of sixteen words folded into the hash. *)
Definition compress (hash block : list Z) : list Z :=
  let w := (block ++ schedule 48 block)%list in
  let final := fold_left round (combine round_constants w) hash in
  map (fun p => add32 (fst p) (snd p)) (combine hash final).

Fixpoint blocks (count : nat) (ws : list Z) : list (list Z) :=
  match count with
  | O => []
  | S count' => firstn 16 ws :: blocks count' (skipn 16 ws)
  end.

Definition digest_Z (msg : list Z) : list Z :=
  let ws := words (pad msg) in
  let hash :=
    fold_left compress (blocks (List.length ws / 16) ws) initial_hash in
  flat_map (be_bytes 4) hash.

Definition xor_pad (c : Z) (key : list Z) : list Z :=
  map (Z.lxor c) (key ++ repeat 0 (64 - List.length key))%list.

(** RFC 2104 with the 64-byte block of SHA-256. *)
Definition hmac_Z (key msg : list Z) : list Z :=
  let key' := if (64 <? Z.of_nat (List.length key)) then digest_Z key else key in
  digest_Z (xor_pad 0x5c key' ++ digest_Z (xor_pad 0x36 key' ++ msg))%list.

Definition Z_of_byte (b : byte) : Z := Z.of_N (Byte.to_N b).
Definition byte_of_Z (z : Z) : byte := byte_of_N (Z.to_N z).

Definition digest (msg : list byte) : list byte :=
  map byte_of_Z (digest_Z (map Z_of_byte msg)).

Definition hmac (key msg : list byte) : list byte :=
  map byte_of_Z (hmac_Z (map Z_of_byte key) (map Z_of_byte msg)).

End SHA256.

(** ** Registration *)

(** [secrets.token_hex(16)], given the bytes the generator draws. *)
Definition token_hex (random_bytes : list byte) : string := hex random_bytes.

(** The INSERT with [ON CONFLICT (guild_id) DO UPDATE ... RETURNING id]:
    the row of the guild is rewritten in place and keeps its id, or a new
    row is added under [fresh_id]. *)
Fixpoint upsert_repository (rows : list repo_row) (fresh_id guild_id : Z)
  (repo_name webhook_secret : string) (channel_id admin_user_id : Z)
  : list repo_row * Z :=
  match rows with
  | [] =>
      ([mk_repo fresh_id guild_id repo_name webhook_secret channel_id
                admin_user_id], fresh_id)
  | r :: rest =>
      if r_guild_id r =? guild_id
      then (mk_repo (r_id r) guild_id repo_name webhook_secret channel_id
                    admin_user_id :: rest, r_id r)
      else
        let (rest', id) :=
          upsert_repository rest fresh_id guild_id repo_name webhook_secret
                            channel_id admin_user_id in
        (r :: rest', id)
  end.

(** What the command shows to the administrator. *)
Record registration : Type := mk_registration {
  reg_repo_id : Z;
  reg_payload_url : string;
  reg_webhook_secret : string
}.

Definition base_url (w : world) : string :=
  match railway_public_domain w with
  | Some domain => domain
  | None => "discord-bot-production-89dc.up.railway.app"
  end.

(** The body of the [register] command. The sequence behind [id] advances
    on every execution of the INSERT, as a PostgreSQL sequence does. *)
Definition register (w : world) (d : db) (guild_id admin_user_id : Z)
  (repo_name : string) (channel_id : Z) (random_bytes : list byte)
  : db * registration :=
  let webhook_secret := token_hex random_bytes in
  let (rows, repo_id) :=
    upsert_repository (repositories d) (repo_seq d) guild_id repo_name
                      webhook_secret channel_id admin_user_id in
  let payload_url :=
    "https://" ++ base_url w ++ "/github-webhook/" ++ str_of_Z repo_id in
  (mk_db rows (repo_seq d + 1) (scores d),
   mk_registration repo_id payload_url webhook_secret).

(** ** The leaderboard *)

(** The join of [scores] with the repository rows of the guild. *)
Definition guild_scores (d : db) (guild_id : Z) : list (string * Z) :=
  flat_map (fun s =>
    flat_map (fun r =>
      if (s_repo_id s =? r_id r) && (r_guild_id r =? guild_id)
      then [(s_github_username s, s_points s)] else [])
      (repositories d))
    (scores d).

Fixpoint insert_desc (x : string * Z) (l : list (string * Z))
  : list (string * Z) :=
  match l with
  | [] => [x]
  | y :: rest =>
      if snd y <=? snd x then x :: y :: rest else y :: insert_desc x rest
  end.

(** [ORDER BY s.points DESC]. The query names no tie-breaker, so the order
    of rows with equal points is the database's choice; the embedding keeps
    table order for them, and no statement below depends on it. *)
Definition order_by_points_desc (l : list (string * Z)) : list (string * Z) :=
  fold_right insert_desc [] l.

(** The query of the [leaderboard] command; it reads and writes nothing. *)
Definition leaderboard (d : db) (guild_id : Z) : list (string * Z) :=
  firstn 10 (order_by_points_desc (guild_scores d guild_id)).

(** ** The webhook handler *)

Record request : Type := mk_request {
  (** [request.headers.get('X-Hub-Signature-256')] *)
  header_signature : option string;
  (** [request.data]: the bytes of the body as Flask hands them out, which
      are the bytes on the wire unless the body was parsed as a form (see
      [receive]) *)
  data : list byte;
  (** [request.json]: the parsed body, or the error Flask answers with *)
  json : result pyval
}.

(** The embed sent to the announcement channel. *)
Record notification : Type := mk_notification {
  n_channel_id : Z;
  n_title : pyval;
  n_url : pyval;
  n_username : string;
  n_points : Z
}.

(** [SELECT webhook_secret, channel_id, repo_name FROM repositories
    WHERE id = %s] followed by [fetchone()]. *)
Fixpoint fetch_repo_config (rows : list repo_row) (repo_id : Z)
  : option (string * Z * string) :=
  match rows with
  | [] => None
  | r :: rest =>
      if r_id r =? repo_id
      then Some (r_webhook_secret r, r_channel_id r, r_repo_name r)
      else fetch_repo_config rest repo_id
  end.

(** Lines 172 to 178: the signature gate. *)
Definition verify_signature (w : world) (repo_secret : string)
  (req : request) : result unit :=
  match header_signature req with
  | None => Abort 400
  | Some signature =>
      if String.eqb signature "" || negb (String.prefix "sha256=" signature)
      then Abort 400
      else
        let expected_signature := sign w repo_secret (data req) in
        same <- compare_digest expected_signature signature ;;
        if negb same then Abort 403 else Ok tt
  end.

(** What lines 183 to 195 collect from a merged pull request. *)
Record scoring_event : Type := mk_event {
  ev_username : pyval;
  ev_pr_number : pyval;
  ev_pr_title : pyval;
  ev_pr_url : pyval;
  ev_issue_number : Z
}.

(** [pr.get('body') or ""], then the search and [int(...group(1))];
    [re.search] wants a [str]. *)
Definition linked_issue (pr : pyval) : result (option Z) :=
  body <- py_get pr "body" ;;
  let pr_body := if py_truthy body then body else PStr "" in
  match pr_body with
  | PStr text =>
      match re_search text with
      | Some ds => issue_number <- py_int ds ;; Ok (Some issue_number)
      | None => Ok None
      end
  | _ => Raise TypeError
  end.

(** Lines 182 to 195: [None] stands for the paths that answer 204 without
    scoring. *)
Definition extract (payload : pyval) : result (option scoring_event) :=
  action <- py_get payload "action" ;;
  if py_eq_str action "closed" then
    pr0 <- py_getitem payload "pull_request" ;;
    merged <- py_getitem pr0 "merged" ;;
    if py_truthy merged then
      pr <- py_getitem payload "pull_request" ;;
      user <- py_getitem pr "user" ;;
      username <- py_getitem user "login" ;;
      pr_number <- py_getitem pr "number" ;;
      pr_title <- py_getitem pr "title" ;;
      pr_url <- py_getitem pr "html_url" ;;
      issue <- linked_issue pr ;;
      match issue with
      | None => Ok None
      | Some issue_number =>
          Ok (Some (mk_event username pr_number pr_title pr_url issue_number))
      end
    else Ok None
  else Ok None.

(** What one run of the handler leaves: the database, the embeds handed to
    the bot, and the response. *)
Record handled : Type := mk_handled {
  h_db : db;
  h_sent : list notification;
  h_response : result (string * Z)
}.

(** Lines 196 to 206. The [github_username] column holds text: a login that
    is not a [str] is left to the database driver, which is taken to
    refuse it. *)
Definition score_and_award (w : world) (d : db) (repo_id repo_channel_id : Z)
  (repo_name : string) (ev : scoring_event) : handled :=
  match get_points_from_pr_labels w repo_name (ev_issue_number ev) with
  | Ok points =>
      if 0 <? points then
        match ev_username ev with
        | PStr username =>
            let d' := set_scores d (update_score (scores d) repo_id username points) in
            let sent :=
              if bot_get_channel w repo_channel_id
              then [mk_notification repo_channel_id (ev_pr_title ev)
                                    (ev_pr_url ev) username points]
              else [] in
            mk_handled d' sent (Ok ("", 204))
        | _ => mk_handled d [] (Raise DatabaseError)
        end
      else mk_handled d [] (Ok ("", 204))
  | Abort c => mk_handled d [] (Abort c)
  | Raise e => mk_handled d [] (Raise e)
  end.

(** Lines 181 to 206: everything behind the signature gate. *)
Definition process (w : world) (d : db) (repo_id repo_channel_id : Z)
  (repo_name : string) (req : request) : handled :=
  match (payload <- json req ;; extract payload) with
  | Ok (Some ev) => score_and_award w d repo_id repo_channel_id repo_name ev
  | Ok None => mk_handled d [] (Ok ("", 204))
  | Abort c => mk_handled d [] (Abort c)
  | Raise e => mk_handled d [] (Raise e)
  end.

(** [github_webhook(repo_id)]. *)
Definition github_webhook (w : world) (d : db) (repo_id : Z) (req : request)
  : handled :=
  match fetch_repo_config (repositories d) repo_id with
  | None => mk_handled d [] (Ok ("Repository not found", 404))
  | Some (repo_secret, repo_channel_id, repo_name) =>
      match verify_signature w repo_secret req with
      | Ok _ => process w d repo_id repo_channel_id repo_name req
      | Abort c => mk_handled d [] (Abort c)
      | Raise e => mk_handled d [] (Raise e)
      end
  end.

(** ** What arrives on the wire *)

(** A POST as the provider sends it. [parsed_as_form] tells whether
    Werkzeug parses the body as a form, which it does for the content type
    [application/x-www-form-urlencoded], the other format the provider
    offers; registration asks for [application/json]. *)
Record delivery : Type := mk_delivery {
  wire_signature : option string;
  wire_body : list byte;
  parsed_as_form : bool;
  wire_json : result pyval
}.

(** The request object Flask makes of it: [request.data] is empty once the
    body went to the form parser. *)
Definition receive (dl : delivery) : request :=
  mk_request (wire_signature dl)
             (if parsed_as_form dl then [] else wire_body dl)
             (wire_json dl).

(** The status the client sees: the one returned, the one of [abort], or
    500 for an exception. *)
Definition http_status (r : result (string * Z)) : Z :=
  match r with
  | Ok (_, c) => c
  | Abort c => c
  | Raise _ => 500
  end.

(** ** Operations of the core and reachable states *)

Inductive op : Type :=
| OpWebhook (repo_id : Z) (req : request)
| OpRegister (guild_id admin_user_id : Z) (repo_name : string)
             (channel_id : Z) (random_bytes : list byte)
| OpLeaderboard (guild_id : Z).

(** One operation run to its end on the database. *)
Definition exec (w : world) (o : op) (d : db) : db :=
  match o with
  | OpWebhook repo_id req => h_db (github_webhook w d repo_id req)
  | OpRegister guild_id admin_user_id repo_name channel_id random_bytes =>
      fst (register w d guild_id admin_user_id repo_name channel_id
                    random_bytes)
  | OpLeaderboard guild_id => let _ := leaderboard d guild_id in d
  end.

(** The states the operations reach from the empty database when they run
    one at a time, each to its end; the world may answer differently at
    every step. What the statements of concurrent calls of [update_score]
    do to [scores] when they interleave is the subject of [run] below. *)
Inductive reachable : db -> Prop :=
| reachable_init : reachable init_db
| reachable_step (w : world) (o : op) (d : db) :
    reachable d -> reachable (exec w o d).

(** The stored total of a contributor; nothing stored counts as none. *)
Definition total (rows : list score_row) (repo_id : Z) (username : string) : Z :=
  match select_points rows repo_id username with
  | Some p => p
  | None => 0
  end.

(** Ids of [repositories] are distinct and below the sequence. *)
Definition repo_ids_fresh (d : db) : Prop :=
  NoDup (map r_id (repositories d)) /\
  Forall (fun r => r_id r < repo_seq d) (repositories d).

(** ** Interleaved calls of [update_score] *)

(** Where a call of [update_score] stands: before its SELECT, between the
    SELECT and the UPDATE or INSERT (holding what [fetchone] gave), or
    returned. *)
Inductive pc : Type :=
| AtSelect
| AtWrite (fetched : option Z)
| Returned.

Record call : Type := mk_call {
  c_repo_id : Z;
  c_username : string;
  c_points_to_add : Z;
  c_pc : pc
}.

Definition at_pc (c : call) (p : pc) : call :=
  mk_call (c_repo_id c) (c_username c) (c_points_to_add c) p.

(** One statement of one call against the shared table. *)
Definition step_call (rows : list score_row) (c : call)
  : list score_row * call :=
  match c_pc c with
  | AtSelect =>
      (rows, at_pc c (AtWrite (select_points rows (c_repo_id c) (c_username c))))
  | AtWrite (Some p) =>
      (sql_update_points rows (p + c_points_to_add c) (c_repo_id c)
                         (c_username c),
       at_pc c Returned)
  | AtWrite None =>
      (sql_insert_score rows (c_repo_id c) (c_username c) (c_points_to_add c),
       at_pc c Returned)
  | Returned => (rows, c)
  end.

(** The call at index [i] takes one step. *)
Fixpoint step_nth (i : nat) (rows : list score_row) (calls : list call)
  : list score_row * list call :=
  match calls with
  | [] => (rows, [])
  | c :: cs =>
      match i with
      | O => let (rows', c') := step_call rows c in (rows', c' :: cs)
      | S j => let (rows', cs') := step_nth j rows cs in (rows', c :: cs')
      end
  end.

(** A schedule names, step by step, the call that runs next. *)
Fixpoint run (schedule : list nat) (rows : list score_row) (calls : list call)
  : list score_row * list call :=
  match schedule with
  | [] => (rows, calls)
  | i :: later =>
      let (rows', calls') := step_nth i rows calls in run later rows' calls'
  end.

Definition returned (c : call) : bool :=
  match c_pc c with
  | Returned => true
  | _ => false
  end.

(** Fresh calls for one contributor, one per amount. *)
Definition awards (repo_id : Z) (username : string) (ps : list Z) : list call :=
  map (fun p => mk_call repo_id username p AtSelect) ps.

Definition sum (ps : list Z) : Z := fold_right Z.add 0 ps.

(** Every call runs its two statements back to back, in the order of
    [order]. *)
Definition serial (order : list nat) : list nat :=
  flat_map (fun i => [i; i]) order.

(** The property claimed of concurrent awards: whatever the schedule, once
    all calls have returned the total has grown by the sum. *)
Definition no_lost_update : Prop :=
  forall rows repo_id username ps schedule,
    let (rows', calls') := run schedule rows (awards repo_id username ps) in
    forallb returned calls' = true ->
    total rows' repo_id username = total rows repo_id username + sum ps.

(** A call that an awarding request is about to make. *)
Definition fresh_award (c : call) : Prop :=
  c_pc c = AtSelect /\ In (c_points_to_add c) [5; 10; 20].

(** A call whose amount, and whose fetched total if it holds one, is not
    negative. *)
Definition call_nonneg (c : call) : Prop :=
  0 <= c_points_to_add c /\
  forall q, c_pc c = AtWrite (Some q) -> 0 <= q.

(** The property claimed of stored totals: one more step of any call never
    lowers the total, whatever ran before. *)
Definition totals_never_decrease : Prop :=
  forall rows repo_id username ps schedule i,
    Forall (fun p => In p [5; 10; 20]) ps ->
    total (fst (run schedule rows (awards repo_id username ps)))
          repo_id username
    <= total (fst (run (schedule ++ [i]) rows (awards repo_id username ps)))
             repo_id username.

(** The property claimed of signatures: a header over the bytes on the
    wire passes the gate. *)
Definition wire_signature_verifies : Prop :=
  forall w secret dl,
    wire_signature dl = Some (sign w secret (wire_body dl)) ->
    verify_signature w secret (receive dl) = Ok tt.

(** ** The pattern, declaratively *)

Definition keyword_literals : list (list ascii) :=
  map list_ascii_of_string keywords.

(** [text] starts with a keyword in any case, one white-space character,
    the hash sign, and the longest run [ds] of digits there. *)
Definition closes_issue_here (text ds : list ascii) : Prop :=
  exists kw ws rest,
    text = (kw ++ ws :: "#"%char :: ds ++ rest)%list /\
    In (lower_list kw) keyword_literals /\
    is_space ws = true /\
    ds <> [] /\
    forallb is_digit ds = true /\
    (forall c rest', rest = c :: rest' -> is_digit c = false).

(** [ds] is the group of the leftmost match in [text]. *)
Definition first_closing_reference (text ds : list ascii) : Prop :=
  exists pre post,
    text = (pre ++ post)%list /\
    closes_issue_here post ds /\
    forall pre' post' ds',
      text = (pre' ++ post')%list -> (List.length pre' < List.length pre)%nat ->
      ~ closes_issue_here post' ds'.

Definition no_closing_reference (text : list ascii) : Prop :=
  forall pre post ds, text = (pre ++ post)%list -> ~ closes_issue_here post ds.





(** ** Auxiliary notions of the statements *)

(** The row of a guild, found by the unique key [guild_id]. *)
Fixpoint find_by_guild (rows : list repo_row) (guild_id : Z) : option repo_row :=
  match rows with
  | [] => None
  | r :: rest =>
      if r_guild_id r =? guild_id then Some r else find_by_guild rest guild_id
  end.

(** The key of a row of [scores]. *)
Definition key_of (r : score_row) : Z * string :=
  (s_repo_id r, s_github_username r).

(** The inverse of [hex], to show that [hex] loses nothing. *)
Definition unhex_digit (c : ascii) : N :=
  if (code c <? 58)%N then (code c - 48)%N else (code c - 87)%N.

Fixpoint unhex (l : list ascii) : list byte :=
  match l with
  | hi :: lo :: rest =>
      byte_of_N (16 * unhex_digit hi + unhex_digit lo)%N :: unhex rest
  | _ => []
  end.

(** A call is quiescent when it is not between its SELECT and its write. *)
Definition quiescent (c : call) : bool :=
  match c_pc c with
  | AtWrite _ => false
  | _ => true
  end.

Definition for_key (repo_id : Z) (username : string) (c : call) : Prop :=
  c_repo_id c = repo_id /\ c_username c = username.

(** What the calls that have not started will still add. *)
Fixpoint pending (calls : list call) : Z :=
  match calls with
  | [] => 0
  | c :: cs =>
      match c_pc c with
      | Returned => pending cs
      | _ => c_points_to_add c + pending cs
      end
  end.

Definition returned_at (i : nat) (calls : list call) : bool :=
  match nth_error calls i with
  | Some c => returned c
  | None => true
  end.

(** Some label is [l] once lowered. *)
Definition has_label (l : string) (names : list string) : Prop :=
  exists n, In n names /\ py_lower n = l.

(** [items] are label objects whose names are [names], in order. *)
Definition labelled (items : list pyval) (names : list string) : Prop :=
  Forall2 (fun item n => py_getitem item "name" = Ok (PStr n)) items names.

(** Nothing but the longest run of digits is what [span_digits] takes. *)
Definition stops_digits (rest : list ascii) : Prop :=
  forall c rest', rest = c :: rest' -> is_digit c = false.

(** The continuation behind the keyword. *)
Definition tail_is (text ds : list ascii) : Prop :=
  exists ws rest,
    text = (ws :: "#"%char :: ds ++ rest)%list /\
    is_space ws = true /\ ds <> [] /\
    forallb is_digit ds = true /\ stops_digits rest.

(** What an operation can do to [scores]: nothing, or one award of 5, 10
    or 20. *)
Definition awards_once (before after : list score_row) : Prop :=
  after = before \/
  exists repo_id username points,
    In points [5; 10; 20] /\
    after = update_score before repo_id username points.

(** One row per contributor, and no negative points. *)
Definition scores_wf (rows : list score_row) : Prop :=
  NoDup (map key_of rows) /\ Forall (fun r => 0 <= s_points r) rows.

(** ** Statements about the gate and the payload *)

(** The header is absent, or does not start with [sha256=]. *)
Definition malformed (header : option string) : bool :=
  match header with
  | None => true
  | Some signature => negb (String.prefix "sha256=" signature)
  end.


(** A dict without the key [k]. *)
Definition without (k : string) (v : pyval) : pyval :=
  match v with
  | PDict kvs => PDict (filter (fun kv => negb (String.eqb (fst kv) k)) kvs)
  | _ => v
  end.

(** ** A concrete deployment, for examples *)

(** A stand-in for the keyed digest, used only to run the examples. *)
Definition example_mac (key msg : list byte) : list byte := (key ++ msg)%list.

Definition example_issue_42 : pyval :=
  PDict [("number", PInt 42);
         ("labels", PList [PDict [("name", PStr "Medium")];
                           PDict [("name", PStr "bug")]])].

Definition example_issue_43 : pyval :=
  PDict [("number", PInt 43);
         ("labels", PList [PDict [("name", PStr "easy")];
                           PDict [("name", PStr "HARD")]])].

Definition example_requests_get (url : string) : result http_response :=
  if String.eqb url (issue_url "acme/widget" 42)
  then Ok (mk_response 200 (Ok example_issue_42))
  else if String.eqb url (issue_url "acme/widget" 43)
  then Ok (mk_response 200 (Ok example_issue_43))
  else Ok (mk_response 404 (Ok (PDict [("message", PStr "Not Found")]))).

Definition example_world : world :=
  mk_world example_requests_get example_mac (fun _ => true) None.

(** The same deployment with the real digest. *)
Definition reference_world : world :=
  mk_world example_requests_get SHA256.hmac (fun _ => true) None.

(** A world in which the API cannot be reached. *)
Definition unreachable_world : world :=
  mk_world (fun _ => Raise ConnectionError) SHA256.hmac (fun _ => true) None.

(** The bytes of an ASCII text. *)
Definition bytes_of (s : string) : list byte :=
  map byte_of_ascii (list_ascii_of_string s).

(** Guild 1001 registers [acme/widget]; it gets id 1 and the secret
    [0102]. *)
Definition example_db : db :=
  fst (register example_world init_db 1001 7 "acme/widget" 55 [x01; x02]).

Definition example_pull_request (body merged : pyval) : pyval :=
  PDict [("merged", merged);
         ("user", PDict [("login", PStr "alice")]);
         ("number", PInt 9);
         ("title", PStr "Add widget");
         ("html_url", PStr "https://github.com/acme/widget/pull/9");
         ("body", body)].

Definition example_payload (pr : pyval) : pyval :=
  PDict [("action", PStr "closed"); ("number", PInt 9); ("pull_request", pr)].

Definition example_body : list byte := [x7b; x7d].

(** A request signed with [secret]. *)
Definition signed_request (w : world) (secret : string) (body : list byte)
  (payload : pyval) : request :=
  mk_request (Some (sign w secret body)) body (Ok payload).

(** A delivery in the provider's other format, the payload in a form
    field, signed over the bytes sent. Flask has no JSON for it. *)
Definition form_delivery : delivery :=
  mk_delivery (Some (sign reference_world "0102" (bytes_of "payload=%7B%7D")))
              (bytes_of "payload=%7B%7D") true (Abort 415).

(** A JSON delivery signed over the bytes sent. *)
Definition json_delivery : delivery :=
  mk_delivery (Some (sign reference_world "0102" (bytes_of "{}")))
              (bytes_of "{}") false (Ok (PDict [])).

(** A header with the prefix and one character outside ASCII. *)
Definition non_ascii_request : request :=
  mk_request (Some ("sha256=" ++ String (ascii_of_N 233) ""))
             example_body (Ok (PDict [])).

(** ** The reply of the leaderboard command *)

(** What lines 142 to 151 send: the plain message for an empty result, or
    the embed, of which the description is kept (title and colour are
    constants). *)
Inductive reply : Type :=
| Message (content : string)
| Embed (description : string).

Definition newline : string := String (ascii_of_N 10) "".

(** The loop over [enumerate(results, 1)]. *)
Fixpoint render_rows (rank : Z) (results : list (string * Z)) : string :=
  match results with
  | [] => ""
  | (username, points) :: rest =>
      "**" ++ str_of_Z rank ++ ".** " ++ username ++ " - `"
        ++ str_of_Z points ++ " points`" ++ newline
        ++ render_rows (rank + 1) rest
  end.

(** The [leaderboard] command. *)
Definition leaderboard_reply (d : db) (guild_id : Z) : reply :=
  let results := leaderboard d guild_id in
  match results with
  | [] =>
      Message "The leaderboard is currently empty for the registered repository."
  | _ => Embed (render_rows 1 results)
  end.

(** The order of the leaderboard: no fewer points than what follows. *)
Definition by_points_desc (a b : string * Z) : Prop := snd b <= snd a.

(** The example deployment after one merged pull request that fixes issue
    42: alice holds 10 points. *)
Definition example_scored_db : db :=
  h_db (github_webhook example_world example_db 1
          (signed_request example_world "0102" example_body
             (example_payload
                (example_pull_request (PStr "Fixes #42") (PBool true))))).

(** What the join of the leaderboard sees of a repository row. *)
Definition id_and_guild (r : repo_row) : Z * Z := (r_id r, r_guild_id r).

(** What the calls that have returned were asked to add. *)
Fixpoint credited (calls : list call) : Z :=
  match calls with
  | [] => 0
  | c :: cs =>
      match c_pc c with
      | Returned => c_points_to_add c + credited cs
      | _ => credited cs
      end
  end.

(** A call for the contributor with an amount that is not negative and, if
    it stands between its statements, a fetched total between [lo] and
    [hi]. *)
Definition call_within (repo_id : Z) (username : string) (lo hi : Z)
  (c : call) : Prop :=
  c_repo_id c = repo_id /\ c_username c = username /\
  0 <= c_points_to_add c /\
  forall fetched, c_pc c = AtWrite fetched ->
                  exists q, fetched = Some q /\ lo <= q <= hi.

(** * Properties *)

(** ** The ledger *)

Lemma score_key_refl_of (r : score_row) :
  score_key (s_repo_id r) (s_github_username r) r = true.
Proof.
  unfold score_key. now rewrite Z.eqb_refl, String.eqb_refl.
Qed.

Lemma select_points_update_same rows n repo_id username p :
  select_points rows repo_id username = Some p ->
  select_points (sql_update_points rows n repo_id username) repo_id username
  = Some n.
Proof.
  induction rows as [|r rows IH]; simpl; [discriminate|].
  destruct (score_key repo_id username r) eqn:K; simpl.
  - intros _. unfold score_key in *. simpl. now rewrite K.
  - rewrite K. exact IH.
Qed.

Lemma score_key_other repo_id username repo_id' username' r :
  (repo_id', username') <> (repo_id, username) ->
  score_key repo_id username r = true ->
  score_key repo_id' username' r = false.
Proof.
  unfold score_key. intros Hne H.
  apply andb_true_iff in H as [H1 H2].
  apply Z.eqb_eq in H1. apply String.eqb_eq in H2.
  destruct (s_repo_id r =? repo_id') eqn:E1; [|reflexivity].
  destruct (String.eqb (s_github_username r) username') eqn:E2; [|reflexivity].
  apply Z.eqb_eq in E1. apply String.eqb_eq in E2.
  exfalso. apply Hne. congruence.
Qed.

Lemma select_points_update_other rows n repo_id username repo_id' username' :
  (repo_id', username') <> (repo_id, username) ->
  select_points (sql_update_points rows n repo_id username) repo_id' username'
  = select_points rows repo_id' username'.
Proof.
  intros Hne. induction rows as [|r rows IH]; simpl; [reflexivity|].
  destruct (score_key repo_id username r) eqn:K.
  - assert (Hf := score_key_other _ _ _ _ _ Hne K).
    rewrite Hf. unfold score_key in Hf |- *. simpl. rewrite Hf. exact IH.
  - rewrite IH. reflexivity.
Qed.

Lemma select_points_insert_same rows repo_id username p :
  select_points rows repo_id username = None ->
  select_points (sql_insert_score rows repo_id username p) repo_id username
  = Some p.
Proof.
  unfold sql_insert_score.
  induction rows as [|r rows IH]; simpl.
  - intros _. unfold score_key. simpl.
    now rewrite Z.eqb_refl, String.eqb_refl.
  - destruct (score_key repo_id username r); [discriminate|exact IH].
Qed.

Lemma select_points_insert_other rows repo_id username p repo_id' username' :
  (repo_id', username') <> (repo_id, username) ->
  select_points (sql_insert_score rows repo_id username p) repo_id' username'
  = select_points rows repo_id' username'.
Proof.
  intros Hne. unfold sql_insert_score.
  induction rows as [|r rows IH]; simpl.
  - assert (K : score_key repo_id username (mk_score repo_id username p) = true)
      by apply (score_key_refl_of (mk_score repo_id username p)).
    now rewrite (score_key_other _ _ _ _ _ Hne K).
  - destruct (score_key repo_id' username' r); [reflexivity|exact IH].
Qed.

(** One call adds its amount to the total of its contributor. *)
Lemma total_update_score rows repo_id username p :
  total (update_score rows repo_id username p) repo_id username
  = total rows repo_id username + p.
Proof.
  unfold total, update_score.
  destruct (select_points rows repo_id username) as [q|] eqn:E.
  - now rewrite (select_points_update_same _ _ _ _ _ E).
  - now rewrite (select_points_insert_same _ _ _ _ E).
Qed.

(** ... and leaves every other contributor alone. *)
Lemma select_points_update_score_other rows repo_id username p repo_id' username' :
  (repo_id', username') <> (repo_id, username) ->
  select_points (update_score rows repo_id username p) repo_id' username'
  = select_points rows repo_id' username'.
Proof.
  intros Hne. unfold update_score.
  destruct (select_points rows repo_id username).
  - now apply select_points_update_other.
  - now apply select_points_insert_other.
Qed.

Lemma select_points_update_score_same rows repo_id username p :
  select_points (update_score rows repo_id username p) repo_id username
  = Some (total rows repo_id username + p).
Proof.
  unfold total, update_score.
  destruct (select_points rows repo_id username) as [q|] eqn:E.
  - now rewrite (select_points_update_same _ _ _ _ _ E).
  - now rewrite (select_points_insert_same _ _ _ _ E).
Qed.

(** ** Interleavings *)

(** The two statements of a call, run back to back, are [update_score]. *)
Lemma step_call_twice rows c :
  c_pc c = AtSelect ->
  let (rows1, c1) := step_call rows c in
  step_call rows1 c1
  = (update_score rows (c_repo_id c) (c_username c) (c_points_to_add c),
     at_pc c Returned).
Proof.
  intros Hpc. unfold step_call at 1. rewrite Hpc.
  unfold step_call, update_score. simpl.
  destruct (select_points rows (c_repo_id c) (c_username c)); reflexivity.
Qed.

Lemma step_pair_preserves repo_id username i : forall calls rows,
  forallb quiescent calls = true ->
  Forall (for_key repo_id username) calls ->
  let (rows', calls') := run [i; i]%nat rows calls in
  forallb quiescent calls' = true /\
  Forall (for_key repo_id username) calls' /\
  total rows' repo_id username + pending calls'
  = total rows repo_id username + pending calls.
Proof.
  induction i as [|j IH]; intros calls rows Hq Hk.
  - destruct calls as [|c cs]; simpl; [auto|].
    simpl in Hq. apply andb_true_iff in Hq as [Hc Hcs].
    inversion Hk as [|? ? [Hr Hu] Hk']; subst.
    unfold quiescent in Hc.
    destruct (c_pc c) eqn:Hpc; try discriminate.
    + assert (H2 := step_call_twice rows c Hpc).
      destruct (step_call rows c) as [rows1 c1]. rewrite H2.
      simpl. split; [assumption|]. split.
      * constructor; [split; reflexivity|assumption].
      * rewrite total_update_score. lia.
    + unfold step_call. rewrite Hpc. rewrite Hpc.
      simpl. unfold quiescent at 1. rewrite Hpc. simpl.
      split; [assumption|]. split; [assumption|]. reflexivity.
  - destruct calls as [|c cs]; simpl; [auto|].
    simpl in Hq. apply andb_true_iff in Hq as [Hc Hcs].
    inversion Hk as [|? ? Hkc Hk']; subst.
    specialize (IH cs rows Hcs Hk'). simpl in IH.
    destruct (step_nth j rows cs) as [rows1 cs1].
    destruct (step_nth j rows1 cs1) as [rows2 cs2].
    destruct IH as (Hq2 & Hk2 & Ht).
    simpl. rewrite Hc, Hq2. split; [reflexivity|]. split; [now constructor|].
    destruct (c_pc c); lia.
Qed.

Lemma run_app s1 : forall s2 rows calls,
  run (s1 ++ s2) rows calls
  = let (rows', calls') := run s1 rows calls in run s2 rows' calls'.
Proof.
  induction s1 as [|i s1 IH]; intros; simpl; [reflexivity|].
  destruct (step_nth i rows calls) as [r c]. apply IH.
Qed.

Lemma serial_preserves repo_id username order : forall calls rows,
  forallb quiescent calls = true ->
  Forall (for_key repo_id username) calls ->
  let (rows', calls') := run (serial order) rows calls in
  forallb quiescent calls' = true /\
  Forall (for_key repo_id username) calls' /\
  total rows' repo_id username + pending calls'
  = total rows repo_id username + pending calls.
Proof.
  induction order as [|i order IH]; intros calls rows Hq Hk.
  - simpl. auto.
  - change (serial (i :: order)) with ([i; i]%nat ++ serial order)%list.
    rewrite run_app.
    assert (H1 := step_pair_preserves repo_id username i calls rows Hq Hk).
    destruct (run [i; i]%nat rows calls) as [rows1 calls1].
    destruct H1 as (Hq1 & Hk1 & Ht1).
    specialize (IH calls1 rows1 Hq1 Hk1).
    destruct (run (serial order) rows1 calls1) as [rows2 calls2].
    destruct IH as (Hq2 & Hk2 & Ht2). repeat split; try assumption. lia.
Qed.

Lemma pending_returned calls :
  forallb returned calls = true -> pending calls = 0.
Proof.
  induction calls as [|c cs IH]; simpl; [reflexivity|].
  intros H. apply andb_true_iff in H as [Hc Hcs].
  unfold returned in Hc. destruct (c_pc c); try discriminate. auto.
Qed.

Lemma awards_fresh repo_id username ps :
  forallb quiescent (awards repo_id username ps) = true /\
  Forall (for_key repo_id username) (awards repo_id username ps) /\
  pending (awards repo_id username ps) = sum ps.
Proof.
  induction ps as [|p ps (Hq & Hk & Hp)]; simpl.
  - repeat split. constructor.
  - repeat split; auto.
    + constructor; [split; reflexivity|assumption].
    + now rewrite Hp.
Qed.

Lemma step_pair_returns i : forall calls rows,
  forallb quiescent calls = true ->
  let calls' := snd (run [i; i]%nat rows calls) in
  returned_at i calls' = true /\
  forall j, returned_at j calls = true -> returned_at j calls' = true.
Proof.
  induction i as [|k IH]; intros calls rows Hq.
  - destruct calls as [|c cs]; simpl; [auto|].
    simpl in Hq. apply andb_true_iff in Hq as [Hc Hcs].
    unfold quiescent in Hc.
    destruct (c_pc c) eqn:Hpc; try discriminate.
    + assert (H2 := step_call_twice rows c Hpc).
      destruct (step_call rows c) as [rows1 c1]. rewrite H2. simpl.
      split; [reflexivity|]. intros [|j]; [reflexivity|auto].
    + unfold step_call. rewrite Hpc, Hpc. simpl.
      split; [unfold returned_at, returned; simpl; now rewrite Hpc|auto].
  - destruct calls as [|c cs]; simpl; [auto|].
    simpl in Hq. apply andb_true_iff in Hq as [Hc Hcs].
    specialize (IH cs rows Hcs). simpl in IH.
    destruct (step_nth k rows cs) as [rows1 cs1].
    destruct (step_nth k rows1 cs1) as [rows2 cs2].
    destruct IH as [Hi Hj]. simpl in *.
    split; [exact Hi|]. intros [|j]; [auto|apply Hj].
Qed.

Lemma serial_returns repo_id username order : forall calls rows,
  forallb quiescent calls = true ->
  Forall (for_key repo_id username) calls ->
  forall j, In j order \/ returned_at j calls = true ->
  returned_at j (snd (run (serial order) rows calls)) = true.
Proof.
  induction order as [|i order IH]; intros calls rows Hq Hk j Hj.
  - simpl. destruct Hj as [[]|Hj]. exact Hj.
  - change (serial (i :: order)) with ([i; i]%nat ++ serial order)%list.
    rewrite run_app.
    assert (H1 := step_pair_preserves repo_id username i calls rows Hq Hk).
    assert (H2 := step_pair_returns i calls rows Hq).
    destruct (run [i; i]%nat rows calls) as [rows1 calls1].
    destruct H1 as (Hq1 & Hk1 & _). simpl in H2. destruct H2 as [Hi Hkeep].
    apply (IH calls1 rows1 Hq1 Hk1).
    destruct Hj as [[->|Hin]|Hret]; auto.
Qed.

Lemma returned_everywhere calls :
  (forall j, (j < List.length calls)%nat -> returned_at j calls = true) ->
  forallb returned calls = true.
Proof.
  induction calls as [|c cs IH]; intros H; simpl; [reflexivity|].
  apply andb_true_iff. split.
  - apply (H 0%nat). simpl. lia.
  - apply IH. intros j Hj. apply (H (S j)). simpl. lia.
Qed.

Lemma run_length schedule : forall rows calls,
  List.length (snd (run schedule rows calls)) = List.length calls.
Proof.
  assert (Hstep : forall i rows calls,
             List.length (snd (step_nth i rows calls)) = List.length calls).
  { induction i as [|k IH]; intros rows [|c cs]; simpl; try reflexivity.
    - destruct (step_call rows c). reflexivity.
    - specialize (IH rows cs). destruct (step_nth k rows cs). simpl in *.
      now rewrite IH. }
  induction schedule as [|i later IH]; intros rows calls; simpl; [reflexivity|].
  specialize (Hstep i rows calls).
  destruct (step_nth i rows calls) as [rows1 calls1]. simpl in Hstep.
  now rewrite IH.
Qed.

(** C1, as amended: awards that run one after another, each SELECT followed
    by its own UPDATE or INSERT, all return and add the sum of their amounts
    to the stored total, in whatever order the calls are served. *)
Theorem serial_awards_sum rows repo_id username ps order :
  (forall i, (i < List.length ps)%nat -> In i order) ->
  let final := run (serial order) rows (awards repo_id username ps) in
  forallb returned (snd final) = true /\
  total (fst final) repo_id username = total rows repo_id username + sum ps.
Proof.
  intros Hall final.
  destruct (awards_fresh repo_id username ps) as (Hq & Hk & Hp).
  assert (Hr : forallb returned (snd final) = true).
  { apply returned_everywhere. intros j Hj. unfold final in *.
    rewrite run_length in Hj. unfold awards in Hj. rewrite length_map in Hj.
    apply (serial_returns repo_id username); auto. }
  split; [exact Hr|].
  assert (H := serial_preserves repo_id username order _ rows Hq Hk).
  fold final in H. destruct final as [rows' calls'].
  destruct H as (_ & _ & Ht). simpl in *.
  rewrite (pending_returned _ Hr) in Ht. lia.
Qed.

Lemma serial_awards_sum_witness :
  let final := run (serial [1; 0]%nat) [mk_score 1 "alice" 5]
                   (awards 1 "alice" [5; 10]) in
  forallb returned (snd final) = true /\
  total (fst final) 1 "alice" = total [mk_score 1 "alice" 5] 1 "alice" + sum [5; 10].
Proof.
  apply (serial_awards_sum [mk_score 1 "alice" 5] 1 "alice" [5; 10] [1; 0]%nat).
  simpl. intros i Hi.
  destruct i as [|[|i]]; [right; left; reflexivity|left; reflexivity|lia].
Defined.

(** C1 fails as stated: two calls that both read before either writes lose
    the first amount. *)
Lemma lost_update_counterexample :
  let rows := [mk_score 1 "alice" 5] in
  let calls := awards 1 "alice" [5; 10] in
  let schedule := [0; 1; 0; 1]%nat in
  forallb returned (snd (run schedule rows calls)) = true /\
  total (fst (run schedule rows calls)) 1 "alice" = 15 /\
  total rows 1 "alice" + sum [5; 10] = 20 /\
  ~ no_lost_update.
Proof.
  repeat split; try reflexivity.
  intros H.
  specialize (H [mk_score 1 "alice" 5] 1 "alice" [5; 10] [0; 1; 0; 1]%nat).
  simpl in H. specialize (H eq_refl). discriminate H.
Qed.

(** C6 fails as stated: [update_score] has no guard. An amount of 0 stores
    a row, and a negative amount lowers the total. *)
Lemma update_score_nonpositive_counterexample :
  0 <= 0 /\
  update_score [] 1 "alice" 0 = [mk_score 1 "alice" 0] /\
  update_score [] 1 "alice" 0 <> [] /\
  -5 <= 0 /\
  update_score [mk_score 1 "alice" 5] 1 "alice" (-5) = [mk_score 1 "alice" 0].
Proof.
  repeat split; try reflexivity; try lia. discriminate.
Qed.

(** ** The label scorer *)

Lemma mem_has_label l names :
  mem l (map py_lower names) = true <-> has_label l names.
Proof.
  unfold mem, has_label. rewrite existsb_exists. split.
  - intros (x & Hin & Heq). apply in_map_iff in Hin as (n & <- & Hn).
    apply String.eqb_eq in Heq. eauto.
  - intros (n & Hn & <-). exists (py_lower n).
    split; [now apply in_map|apply String.eqb_refl].
Qed.

Lemma map_result_labelled items names :
  labelled items names ->
  map_result (fun label => name <- py_getitem label "name" ;; py_str_lower name)
             items
  = Ok (map py_lower names).
Proof.
  induction 1 as [|item n items names Hitem _ IH]; simpl; [reflexivity|].
  rewrite Hitem. simpl. rewrite IH. reflexivity.
Qed.

Lemma label_names_labelled data items names :
  py_get_default data "labels" (PList []) = Ok (PList items) ->
  labelled items names ->
  label_names data = Ok (map py_lower names).
Proof.
  intros Hget Hl. unfold label_names. rewrite Hget. simpl.
  now apply map_result_labelled.
Qed.

(** C5, as amended: when the API answers, a status other than 200 (an
    issue that cannot be found, an error status) scores 0; on a 200
    response the labels score by precedence hard, medium, easy, compared in
    lower case, and no such label, or no label at all, scores 0. *)
Theorem label_score_precedence (w : world) (repo_name : string)
  (issue_number : Z) (response : http_response) :
  requests_get w (issue_url repo_name issue_number) = Ok response ->
  (status_code response <> 200 ->
   get_points_from_pr_labels w repo_name issue_number = Ok 0) /\
  (forall data items names,
      status_code response = 200 ->
      response_json response = Ok data ->
      py_get_default data "labels" (PList []) = Ok (PList items) ->
      labelled items names ->
      let points := get_points_from_pr_labels w repo_name issue_number in
      (has_label "hard" names -> points = Ok 20) /\
      (~ has_label "hard" names -> has_label "medium" names ->
       points = Ok 10) /\
      (~ has_label "hard" names -> ~ has_label "medium" names ->
       has_label "easy" names -> points = Ok 5) /\
      (~ has_label "hard" names -> ~ has_label "medium" names ->
       ~ has_label "easy" names -> points = Ok 0) /\
      (names = [] -> points = Ok 0)).
Proof.
  intros Hr. split.
  - intros Hs. unfold get_points_from_pr_labels. rewrite Hr. cbn [bind].
    apply Z.eqb_neq in Hs. now rewrite Hs.
  - intros data items names Hs Hj Hget Hl points.
    assert (Hp : points = Ok (points_of_labels (map py_lower names))).
    { unfold points, get_points_from_pr_labels. rewrite Hr. cbn [bind].
      rewrite Hs, Hj. simpl.
      now rewrite (label_names_labelled _ _ _ Hget Hl). }
    rewrite Hp. unfold points_of_labels.
    destruct (mem "hard" (map py_lower names)) eqn:Eh;
      [apply mem_has_label in Eh|];
      (destruct (mem "medium" (map py_lower names)) eqn:Em;
       [apply mem_has_label in Em|]);
      (destruct (mem "easy" (map py_lower names)) eqn:Ee;
       [apply mem_has_label in Ee|]);
      repeat split; intros; subst; try reflexivity; try contradiction;
      try match goal with
          | H : has_label _ [] |- _ => destruct H as (? & [] & _)
          end;
      try match goal with
          | E : mem ?l _ = false, H : has_label ?l _ |- _ =>
              apply mem_has_label in H; congruence
          end.
Qed.

Lemma label_score_precedence_witness :
  get_points_from_pr_labels example_world "acme/widget" 43 = Ok 20 /\
  get_points_from_pr_labels example_world "acme/widget" 7 = Ok 0.
Proof.
  split.
  - destruct (proj2 (label_score_precedence example_world "acme/widget" 43
                       (mk_response 200 (Ok example_issue_43)) eq_refl)
                example_issue_43
                [PDict [("name", PStr "easy")]; PDict [("name", PStr "HARD")]]
                ["easy"; "HARD"] eq_refl eq_refl eq_refl)
      as [Hhard _].
    + repeat constructor.
    + apply Hhard. exists "HARD". split; [simpl; auto|reflexivity].
  - apply (proj1 (label_score_precedence example_world "acme/widget" 7
                    (mk_response 404 (Ok (PDict [("message", PStr "Not Found")])))
                    eq_refl)).
    discriminate.
Defined.

(** C5 fails as stated: a call that fails is not turned into 0. When
    [requests.get] raises, and when a 200 response has a body that is not
    JSON, the exception leaves the scorer, and the webhook that asked is
    answered 500 instead of being acknowledged. *)
Lemma scorer_failure_counterexample :
  get_points_from_pr_labels unreachable_world "acme/widget" 42
  = Raise ConnectionError /\
  get_points_from_pr_labels
    (mk_world (fun _ => Ok (mk_response 200 (Raise ValueError)))
              SHA256.hmac (fun _ => true) None)
    "acme/widget" 42
  = Raise ValueError /\
  github_webhook unreachable_world example_db 1
    (signed_request unreachable_world "0102" example_body
       (example_payload (example_pull_request (PStr "Fixes #42") (PBool true))))
  = mk_handled example_db [] (Raise ConnectionError).
Proof. repeat split; vm_compute; reflexivity. Qed.

(** ** The closing-keyword pattern *)

Lemma is_space_lower_char c : is_space (lower_char c) = is_space c.
Proof.
  destruct c as [[] [] [] [] [] [] [] []]; vm_compute; reflexivity.
Qed.

Lemma match_literal_app lit : forall kw tail,
  lower_list kw = lit -> match_literal lit (kw ++ tail)%list = Some tail.
Proof.
  induction lit as [|a lit IH]; intros [|c kw] tail H; simpl in *;
    try discriminate; [reflexivity|].
  injection H as Hc Hkw. rewrite Hc, Ascii.eqb_refl. now apply IH.
Qed.

Lemma match_literal_inv lit : forall text tail,
  match_literal lit text = Some tail ->
  exists kw, text = (kw ++ tail)%list /\ lower_list kw = lit.
Proof.
  induction lit as [|a lit IH]; intros text tail H; simpl in H.
  - injection H as <-. now exists [].
  - destruct text as [|c text]; [discriminate|].
    destruct (Ascii.eqb (lower_char c) a) eqn:E; [|discriminate].
    apply Ascii.eqb_eq in E. apply IH in H as (kw & -> & <-).
    exists (c :: kw). simpl. now rewrite E.
Qed.

Lemma span_digits_app ds : forall rest,
  forallb is_digit ds = true -> stops_digits rest ->
  span_digits (ds ++ rest)%list = (ds, rest).
Proof.
  induction ds as [|d ds IH]; intros rest Hd Hstop; cbn [app span_digits].
  - destruct rest as [|c rest']; [reflexivity|].
    cbn [span_digits]. now rewrite (Hstop c rest' eq_refl).
  - cbn [forallb] in Hd. apply andb_true_iff in Hd as [Hd1 Hd2].
    now rewrite Hd1, (IH rest Hd2 Hstop).
Qed.

Lemma span_digits_inv text : forall ds rest,
  span_digits text = (ds, rest) ->
  text = (ds ++ rest)%list /\ forallb is_digit ds = true /\ stops_digits rest.
Proof.
  induction text as [|c text IH]; intros ds rest H; cbn [span_digits] in H.
  - injection H as <- <-. repeat split. intros ? ? [=].
  - destruct (is_digit c) eqn:E.
    + destruct (span_digits text) as [ds' tl] eqn:Es.
      injection H as <- <-. destruct (IH ds' tl eq_refl) as (-> & Hd & Hs).
      cbn [app forallb]. now rewrite E, Hd.
    + injection H as <- <-. repeat split. intros c' r' [= <- <-]. exact E.
Qed.

Lemma match_tail_iff text ds : match_tail text = Some ds <-> tail_is text ds.
Proof.
  unfold match_tail, tail_is. split.
  - destruct text as [|ws [|h text]]; try discriminate.
    destruct (is_space ws) eqn:Ew; [|discriminate].
    destruct (Ascii.eqb h "#") eqn:Eh; [|discriminate]. simpl.
    apply Ascii.eqb_eq in Eh. subst h.
    destruct (span_digits text) as [ds' rest] eqn:Es.
    apply span_digits_inv in Es as (-> & Hd & Hs). simpl.
    destruct ds' as [|d ds']; [discriminate|]. intros [= <-].
    exists ws, rest. repeat split; auto. discriminate.
  - intros (ws & rest & -> & Hw & Hne & Hd & Hs).
    rewrite Hw. simpl. rewrite (span_digits_app ds rest Hd Hs). simpl.
    destruct ds; [contradiction|reflexivity].
Qed.

Lemma closes_issue_here_alt text ds :
  closes_issue_here text ds <->
  exists kw tail,
    text = (kw ++ tail)%list /\ In (lower_list kw) keyword_literals /\
    tail_is tail ds.
Proof.
  unfold closes_issue_here, tail_is. split.
  - intros (kw & ws & rest & -> & Hin & Hw & Hne & Hd & Hs).
    exists kw, (ws :: "#"%char :: ds ++ rest)%list.
    split; [reflexivity|]. split; [assumption|].
    exists ws, rest. split; [reflexivity|].
    repeat (split; [assumption|]). exact Hs.
  - intros (kw & tail & -> & Hin & ws & rest & -> & Hw & Hne & Hd & Hs).
    exists kw, ws, rest. split; [reflexivity|].
    repeat (split; [assumption|]). exact Hs.
Qed.

Lemma match_alternatives_sound kws : forall text ds,
  match_alternatives kws text = Some ds ->
  exists kw tail,
    text = (kw ++ tail)%list /\
    In (lower_list kw) (map list_ascii_of_string kws) /\ tail_is tail ds.
Proof.
  induction kws as [|k kws IH]; intros text ds H; simpl in H; [discriminate|].
  assert (Hrec : match_alternatives kws text = Some ds ->
                 exists kw tail,
                   text = (kw ++ tail)%list /\
                   In (lower_list kw) (map list_ascii_of_string (k :: kws)) /\
                   tail_is tail ds).
  { intros H'. apply IH in H' as (kw & tail & ? & ? & ?).
    exists kw, tail. simpl. auto. }
  destruct (match_literal (list_ascii_of_string k) text) as [rest|] eqn:El;
    [|auto].
  destruct (match_tail rest) as [ds'|] eqn:Et; [|auto].
  injection H as <-.
  apply match_literal_inv in El as (kw & -> & Hkw).
  apply match_tail_iff in Et.
  exists kw, rest. simpl. auto.
Qed.

Lemma match_alternatives_finds kws : forall kw tail ds,
  In (lower_list kw) (map list_ascii_of_string kws) ->
  tail_is tail ds ->
  match_alternatives kws (kw ++ tail)%list <> None.
Proof.
  induction kws as [|k kws IH]; intros kw tail ds Hin Ht; simpl in *;
    [contradiction|].
  destruct Hin as [Hk|Hin].
  - rewrite (match_literal_app _ kw tail (eq_sym Hk)).
    apply match_tail_iff in Ht. rewrite Ht. discriminate.
  - destruct (match_literal (list_ascii_of_string k) (kw ++ tail)%list);
      [|now apply (IH kw tail ds)].
    destruct (match_tail l); [discriminate|now apply (IH kw tail ds)].
Qed.

(** No keyword holds a white-space character. *)
Lemma keyword_chars kw :
  In (lower_list kw) keyword_literals ->
  Forall (fun c => is_space c = false) kw.
Proof.
  intros Hin.
  assert (Hl : Forall (fun c => is_space c = false) (lower_list kw)).
  { unfold keyword_literals, keywords in Hin. simpl in Hin.
    repeat (destruct Hin as [<-|Hin];
            [repeat constructor|]). contradiction. }
  unfold lower_list in Hl. apply Forall_map in Hl.
  eapply Forall_impl; [|exact Hl]. intros c Hc. cbv beta in Hc.
  now rewrite is_space_lower_char in Hc.
Qed.

Lemma keyword_prefix_unique kw1 : forall kw2 ws1 ws2 t1 t2,
  (kw1 ++ ws1 :: t1 = kw2 ++ ws2 :: t2)%list ->
  Forall (fun c => is_space c = false) kw1 ->
  Forall (fun c => is_space c = false) kw2 ->
  is_space ws1 = true -> is_space ws2 = true ->
  t1 = t2.
Proof.
  induction kw1 as [|c1 kw1 IH]; intros [|c2 kw2] ws1 ws2 t1 t2 Heq H1 H2 Hw1 Hw2;
    simpl in Heq; injection Heq as Hc Ht.
  - exact Ht.
  - subst. inversion H2; congruence.
  - subst. inversion H1; congruence.
  - inversion H1; inversion H2; subst. eapply IH; eauto.
Qed.

(** At one position the pattern has at most one group. *)
Lemma closes_issue_here_unique text ds1 ds2 :
  closes_issue_here text ds1 -> closes_issue_here text ds2 -> ds1 = ds2.
Proof.
  intros (kw1 & ws1 & r1 & E1 & K1 & W1 & _ & D1 & S1)
         (kw2 & ws2 & r2 & E2 & K2 & W2 & _ & D2 & S2).
  rewrite E1 in E2.
  apply keyword_prefix_unique in E2;
    auto using keyword_chars.
  injection E2 as E2.
  assert (Ha := span_digits_app ds1 r1 D1 S1).
  assert (Hb := span_digits_app ds2 r2 D2 S2).
  rewrite E2 in Ha. congruence.
Qed.

Lemma match_at_iff text ds :
  match_at text = Some ds <-> closes_issue_here text ds.
Proof.
  unfold match_at. split.
  - intros H. apply match_alternatives_sound in H.
    now apply closes_issue_here_alt.
  - intros H.
    assert (H' := H). apply closes_issue_here_alt in H' as (kw & tail & -> & Hin & Ht).
    destruct (match_alternatives keywords (kw ++ tail)%list) as [ds'|] eqn:E.
    + f_equal. apply (closes_issue_here_unique (kw ++ tail)%list); auto.
      apply closes_issue_here_alt. now apply match_alternatives_sound.
    + exfalso. revert E. now apply (match_alternatives_finds keywords kw tail ds).
Qed.

Lemma match_at_none text :
  match_at text = None <-> forall ds, ~ closes_issue_here text ds.
Proof.
  split.
  - intros H ds Hc. apply match_at_iff in Hc. congruence.
  - intros H. destruct (match_at text) as [ds|] eqn:E; [|reflexivity].
    apply match_at_iff in E. now apply H in E.
Qed.

(** [re.search] returns the group of the leftmost match. *)
Lemma search_from_first text : forall ds,
  search_from text = Some ds <-> first_closing_reference text ds.
Proof.
  unfold first_closing_reference.
  induction text as [|c text IH]; intros ds.
  - cbn [search_from]. split.
    + destruct (match_at []) as [ds'|] eqn:E; [|discriminate].
      intros [= <-]. exists [], []. split; [reflexivity|].
      split; [now apply match_at_iff|]. simpl. intros; lia.
    + intros (pre & post & Heq & Hc & _).
      symmetry in Heq. apply app_eq_nil in Heq as [-> ->].
      apply match_at_iff in Hc. rewrite Hc. reflexivity.
  - cbn [search_from]. destruct (match_at (c :: text)) as [ds'|] eqn:E.
    + split.
      * intros [= <-]. exists [], (c :: text). split; [reflexivity|].
        split; [now apply match_at_iff|]. simpl. intros; lia.
      * intros (pre & post & Heq & Hc & Hmin). destruct pre as [|p pre].
        -- simpl in Heq. subst post. apply match_at_iff in Hc. congruence.
        -- exfalso. apply (Hmin [] (c :: text) ds'); [reflexivity|simpl; lia|].
           now apply match_at_iff.
    + rewrite IH. split.
      * intros (pre & post & -> & Hc & Hmin).
        exists (c :: pre), post. split; [reflexivity|]. split; [assumption|].
        intros [|p pre'] post' ds'' Heq Hlen Hc'.
        -- simpl in Heq. subst post'. apply match_at_iff in Hc'. congruence.
        -- simpl in Heq. injection Heq as -> Heq.
           apply (Hmin pre' post' ds''); auto. simpl in Hlen. lia.
      * intros (pre & post & Heq & Hc & Hmin). destruct pre as [|p pre].
        -- simpl in Heq. subst post. apply match_at_iff in Hc. congruence.
        -- simpl in Heq. injection Heq as -> Heq.
           exists pre, post. split; [assumption|]. split; [assumption|].
           intros pre' post' ds'' Heq' Hlen.
           apply (Hmin (p :: pre') post' ds''); simpl; [now rewrite Heq'|lia].
Qed.

Lemma search_from_none text :
  search_from text = None <-> no_closing_reference text.
Proof.
  unfold no_closing_reference.
  induction text as [|c text IH].
  - cbn [search_from]. destruct (match_at []) as [ds'|] eqn:E.
    + split; [discriminate|]. intros H. exfalso.
      apply (H [] [] ds'); [reflexivity|now apply match_at_iff].
    + split; [|reflexivity]. intros _ pre post ds Heq Hc.
      symmetry in Heq. apply app_eq_nil in Heq as [-> ->].
      apply match_at_iff in Hc. congruence.
  - cbn [search_from]. destruct (match_at (c :: text)) as [ds'|] eqn:E.
    + split; [discriminate|]. intros H. exfalso.
      apply (H [] (c :: text) ds'); [reflexivity|now apply match_at_iff].
    + rewrite IH. split.
      * intros H [|p pre] post ds Heq Hc.
        -- simpl in Heq. subst post. apply match_at_iff in Hc. congruence.
        -- simpl in Heq. injection Heq as -> Heq. now apply (H pre post ds).
      * intros H pre post ds Heq. apply (H (c :: pre) post ds).
        simpl. now rewrite Heq.
Qed.

(** ** The signature gate *)

Lemma hex_of_byte_ascii b : forallb is_ascii_char (hex_of_byte b) = true.
Proof. destruct b; vm_compute; reflexivity. Qed.

Lemma is_ascii_hex bs : is_ascii (hex bs) = true.
Proof.
  unfold is_ascii, hex. rewrite list_ascii_of_string_of_list_ascii.
  induction bs as [|b bs IH]; cbn [flat_map]; [reflexivity|].
  rewrite forallb_app, IH, hex_of_byte_ascii. reflexivity.
Qed.

Lemma is_ascii_sign w secret body : is_ascii (sign w secret body) = true.
Proof.
  unfold sign.
  change (is_ascii (hex (hmac_sha256 w (encode_utf8 secret) body)) = true).
  apply is_ascii_hex.
Qed.

Lemma prefix_sign w secret body :
  String.prefix "sha256=" (sign w secret body) = true.
Proof.
  unfold sign. cbn.
  now destruct (hex (hmac_sha256 w (encode_utf8 secret) body)).
Qed.

Lemma sign_nonempty w secret body :
  String.eqb (sign w secret body) "" = false.
Proof. reflexivity. Qed.

Lemma verify_signature_sign w secret req :
  header_signature req = Some (sign w secret (data req)) ->
  verify_signature w secret req = Ok tt.
Proof.
  intros H. unfold verify_signature. rewrite H.
  rewrite sign_nonempty, prefix_sign. simpl.
  unfold compare_digest. rewrite is_ascii_sign. simpl.
  rewrite String.eqb_refl. reflexivity.
Qed.

Lemma verify_signature_malformed w secret req :
  malformed (header_signature req) = true ->
  verify_signature w secret req = Abort 400.
Proof.
  unfold malformed, verify_signature.
  destruct (header_signature req) as [signature|]; [|reflexivity].
  intros H. rewrite H. now rewrite orb_true_r.
Qed.

Lemma verify_signature_mismatch w secret req signature :
  header_signature req = Some signature ->
  String.prefix "sha256=" signature = true ->
  is_ascii signature = true ->
  signature <> sign w secret (data req) ->
  verify_signature w secret req = Abort 403.
Proof.
  intros Hh Hp Ha Hne. unfold verify_signature. rewrite Hh, Hp.
  assert (Hn : String.eqb signature "" = false).
  { destruct signature; [discriminate Hp|reflexivity]. }
  rewrite Hn. cbn [orb negb]. unfold compare_digest.
  rewrite is_ascii_sign, Ha. cbn [andb bind].
  assert (He : String.eqb (sign w secret (data req)) signature = false).
  { apply String.eqb_neq. congruence. }
  rewrite He. reflexivity.
Qed.

(** C2, as amended: an unknown id answers 404; an absent header or one
    that does not start with [sha256=] aborts with 400; an ASCII header with
    the prefix and another digest aborts with 403; each time the database is
    the one before the request and nothing is sent. *)
Theorem webhook_fails_closed (w : world) (d : db) (repo_id : Z) (req : request) :
  (fetch_repo_config (repositories d) repo_id = None ->
   github_webhook w d repo_id req
   = mk_handled d [] (Ok ("Repository not found", 404))) /\
  (forall secret channel_id repo_name,
      fetch_repo_config (repositories d) repo_id
      = Some (secret, channel_id, repo_name) ->
      (malformed (header_signature req) = true ->
       github_webhook w d repo_id req = mk_handled d [] (Abort 400)) /\
      (forall signature,
          header_signature req = Some signature ->
          String.prefix "sha256=" signature = true ->
          is_ascii signature = true ->
          signature <> sign w secret (data req) ->
          github_webhook w d repo_id req = mk_handled d [] (Abort 403))).
Proof.
  split.
  - intros H. unfold github_webhook. now rewrite H.
  - intros secret channel_id repo_name H. split.
    + intros Hm. unfold github_webhook. rewrite H.
      now rewrite (verify_signature_malformed w secret req Hm).
    + intros signature Hh Hp Ha Hne. unfold github_webhook. rewrite H.
      now rewrite (verify_signature_mismatch w secret req signature Hh Hp Ha Hne).
Qed.

Lemma webhook_fails_closed_witness :
  github_webhook example_world example_db 2
    (signed_request example_world "0102" example_body (PDict []))
  = mk_handled example_db [] (Ok ("Repository not found", 404)) /\
  github_webhook example_world example_db 1
    (mk_request None example_body (Ok (PDict [])))
  = mk_handled example_db [] (Abort 400) /\
  github_webhook example_world example_db 1
    (mk_request (Some "sha256=00") example_body (Ok (PDict [])))
  = mk_handled example_db [] (Abort 403).
Proof.
  split; [|split].
  - apply (webhook_fails_closed example_world example_db 2). reflexivity.
  - apply (proj2 (webhook_fails_closed example_world example_db 1
                    (mk_request None example_body (Ok (PDict []))))
             "0102" 55 "acme/widget"); reflexivity.
  - apply (proj2 (proj2 (webhook_fails_closed example_world example_db 1
                    (mk_request (Some "sha256=00") example_body (Ok (PDict []))))
             "0102" 55 "acme/widget" eq_refl) "sha256=00");
      try reflexivity. vm_compute. discriminate.
Defined.

(** C2 fails as stated: a header that starts with [sha256=], so passes the
    test of line 173, and differs from the expected signature is not always
    answered 403. With a character outside ASCII in it
    [hmac.compare_digest] raises [TypeError]: the client sees 500, neither
    400 nor 403. *)
Lemma non_ascii_header_counterexample :
  malformed (header_signature non_ascii_request) = false /\
  header_signature non_ascii_request
  <> Some (sign reference_world "0102" (data non_ascii_request)) /\
  github_webhook reference_world example_db 1 non_ascii_request
  = mk_handled example_db [] (Raise TypeError) /\
  http_status
    (h_response (github_webhook reference_world example_db 1 non_ascii_request))
  = 500.
Proof.
  split; [reflexivity|]. split; [vm_compute; discriminate|].
  split; vm_compute; reflexivity.
Qed.

(** The same in terms of [request.data]: a header made of [sha256=] and the
    lower-case hex digest of [request.data] under the tenant's secret passes
    the gate, and the handler goes on to the payload. *)
Theorem signed_request_verifies (w : world) (d : db) (repo_id : Z)
  (secret : string) (channel_id : Z) (repo_name : string) (req : request) :
  header_signature req = Some ("sha256=" ++ hex (hmac_sha256 w (encode_utf8 secret) (data req))) ->
  verify_signature w secret req = Ok tt /\
  (fetch_repo_config (repositories d) repo_id
   = Some (secret, channel_id, repo_name) ->
   github_webhook w d repo_id req
   = process w d repo_id channel_id repo_name req).
Proof.
  intros H. assert (Hv := verify_signature_sign w secret req H).
  split; [exact Hv|]. intros Hf. unfold github_webhook. now rewrite Hf, Hv.
Qed.

Lemma signed_request_verifies_witness :
  verify_signature example_world "0102"
    (signed_request example_world "0102" example_body (PDict [])) = Ok tt /\
  github_webhook example_world example_db 1
    (signed_request example_world "0102" example_body (PDict []))
  = process example_world example_db 1 55 "acme/widget"
      (signed_request example_world "0102" example_body (PDict [])).
Proof.
  destruct (signed_request_verifies example_world example_db 1 "0102" 55
              "acme/widget"
              (signed_request example_world "0102" example_body (PDict []))
              eq_refl) as [Hv Hp].
  split; [exact Hv|]. apply Hp. reflexivity.
Defined.

(** The implementation of the digest agrees with the published values:
    SHA-256 of [abc] (FIPS 180-4) and test case 2 of RFC 4231. *)
Example sha256_abc :
  hex (SHA256.digest (bytes_of "abc"))
  = "ba7816bf8f01cfea414140de5dae2223b00361a396177a9cb410ff61f20015ad".
Proof. vm_compute. reflexivity. Qed.

Example hmac_sha256_rfc4231_case2 :
  hex (SHA256.hmac (bytes_of "Jefe") (bytes_of "what do ya want for nothing?"))
  = "5bdcc146bf60754e6a042426089575c75a003f089d2739839dec58b964ec3843".
Proof. vm_compute. reflexivity. Qed.

(** C8, as amended: for a request whose body Werkzeug does not parse as a
    form, as with the content type [application/json] that registration asks
    for, the header [sha256=] followed by the lower-case hex digest of the
    bytes on the wire under the tenant's secret passes the gate (no 400, no
    403 from it), and the handler goes on to the payload. *)
Theorem signed_delivery_verifies (w : world) (d : db) (repo_id : Z)
  (secret : string) (channel_id : Z) (repo_name : string) (dl : delivery) :
  parsed_as_form dl = false ->
  wire_signature dl
  = Some ("sha256=" ++ hex (hmac_sha256 w (encode_utf8 secret) (wire_body dl))) ->
  data (receive dl) = wire_body dl /\
  verify_signature w secret (receive dl) = Ok tt /\
  (fetch_repo_config (repositories d) repo_id
   = Some (secret, channel_id, repo_name) ->
   github_webhook w d repo_id (receive dl)
   = process w d repo_id channel_id repo_name (receive dl)).
Proof.
  intros Hform Hsig.
  assert (Hdata : data (receive dl) = wire_body dl).
  { unfold receive. cbn [data]. now rewrite Hform. }
  assert (Hv : verify_signature w secret (receive dl) = Ok tt).
  { apply verify_signature_sign. rewrite Hdata. exact Hsig. }
  split; [exact Hdata|]. split; [exact Hv|].
  intros Hf. unfold github_webhook. now rewrite Hf, Hv.
Qed.

Lemma signed_delivery_verifies_witness :
  verify_signature reference_world "0102" (receive json_delivery) = Ok tt /\
  github_webhook reference_world example_db 1 (receive json_delivery)
  = process reference_world example_db 1 55 "acme/widget"
      (receive json_delivery).
Proof.
  destruct (signed_delivery_verifies reference_world example_db 1 "0102" 55
              "acme/widget" json_delivery eq_refl eq_refl) as (_ & Hv & Hp).
  split; [exact Hv|]. apply Hp. reflexivity.
Defined.

(** C8 fails as stated: a form delivery whose header is the digest of the
    bytes sent is refused. For it [request.data] is empty, the handler
    computes the digest of nothing, and the comparison fails with 403. *)
Lemma form_delivery_counterexample :
  wire_signature form_delivery
  = Some ("sha256="
          ++ hex (SHA256.hmac (encode_utf8 "0102") (wire_body form_delivery))) /\
  data (receive form_delivery) = [] /\
  verify_signature reference_world "0102" (receive form_delivery) = Abort 403 /\
  github_webhook reference_world example_db 1 (receive form_delivery)
  = mk_handled example_db [] (Abort 403) /\
  ~ wire_signature_verifies.
Proof.
  assert (Hv : verify_signature reference_world "0102" (receive form_delivery)
               = Abort 403) by (vm_compute; reflexivity).
  split; [reflexivity|]. split; [reflexivity|]. split; [exact Hv|].
  split; [vm_compute; reflexivity|].
  intros H. specialize (H reference_world "0102" form_delivery eq_refl).
  rewrite Hv in H. discriminate H.
Qed.

(** ** Extraction *)

Lemma py_eq_str_true v s : py_eq_str v s = true -> v = PStr s.
Proof.
  destruct v; simpl; try discriminate.
  intros H. apply String.eqb_eq in H. now subst.
Qed.

(** C3: an event is extracted only from a payload whose action is
    [closed] and whose [pull_request.merged] is true (in Python's sense:
    a JSON [true], or another value that counts as true); with
    [merged == false] and the action [closed] there is no event and the
    answer is 204. *)
Theorem extract_only_closed_and_merged (payload : pyval) :
  (forall ev,
      extract payload = Ok (Some ev) ->
      py_get payload "action" = Ok (PStr "closed") /\
      exists pr merged,
        py_getitem payload "pull_request" = Ok pr /\
        py_getitem pr "merged" = Ok merged /\
        py_truthy merged = true /\
        (forall b, merged = PBool b -> b = true)) /\
  (forall pr,
      py_get payload "action" = Ok (PStr "closed") ->
      py_getitem payload "pull_request" = Ok pr ->
      py_getitem pr "merged" = Ok (PBool false) ->
      extract payload = Ok None /\
      forall w d repo_id channel_id repo_name req,
        json req = Ok payload ->
        process w d repo_id channel_id repo_name req
        = mk_handled d [] (Ok ("", 204))).
Proof.
  split.
  - intros ev H. unfold extract in H.
    destruct (py_get payload "action") as [action| |] eqn:Ea;
      cbn [bind] in H; try discriminate H.
    destruct (py_eq_str action "closed") eqn:Ec; [|discriminate H].
    apply py_eq_str_true in Ec. subst action. split; [reflexivity|].
    destruct (py_getitem payload "pull_request") as [pr| |] eqn:Ep;
      cbn [bind] in H; try discriminate H.
    destruct (py_getitem pr "merged") as [merged| |] eqn:Em;
      cbn [bind] in H; try discriminate H.
    destruct (py_truthy merged) eqn:Et; [|discriminate H].
    exists pr, merged. repeat split; auto.
    intros b ->. exact Et.
  - intros pr Ha Hp Hm.
    assert (He : extract payload = Ok None).
    { unfold extract. rewrite Ha. cbn [bind py_eq_str].
      rewrite String.eqb_refl, Hp. cbn [bind]. rewrite Hm. reflexivity. }
    split; [exact He|].
    intros w d repo_id channel_id repo_name req Hj.
    unfold process. rewrite Hj. cbn [bind]. now rewrite He.
Qed.

Lemma extract_only_closed_and_merged_witness :
  py_get (example_payload (example_pull_request (PStr "Fixes #42") (PBool true)))
         "action" = Ok (PStr "closed") /\
  extract (example_payload (example_pull_request (PStr "Fixes #42") (PBool false)))
  = Ok None.
Proof.
  split.
  - apply (proj1 (extract_only_closed_and_merged
                    (example_payload
                       (example_pull_request (PStr "Fixes #42") (PBool true))))
             (mk_event (PStr "alice") (PInt 9) (PStr "Add widget")
                (PStr "https://github.com/acme/widget/pull/9") 42)).
    reflexivity.
  - apply (proj2 (extract_only_closed_and_merged
                    (example_payload
                       (example_pull_request (PStr "Fixes #42") (PBool false))))
             (example_pull_request (PStr "Fixes #42") (PBool false)));
      reflexivity.
Defined.







(** C6, as amended: the guard is in the handler. When the scorer gives an
    amount that is not positive, [update_score] is not called: the database
    is unchanged, nothing is sent and the answer is 204. *)
Theorem nonpositive_points_skip_award (w : world) (d : db) (repo_id : Z)
  (secret : string) (channel_id : Z) (repo_name : string) (req : request)
  (ev : scoring_event) (points : Z) :
  fetch_repo_config (repositories d) repo_id
  = Some (secret, channel_id, repo_name) ->
  verify_signature w secret req = Ok tt ->
  (payload <- json req ;; extract payload) = Ok (Some ev) ->
  get_points_from_pr_labels w repo_name (ev_issue_number ev) = Ok points ->
  points <= 0 ->
  github_webhook w d repo_id req = mk_handled d [] (Ok ("", 204)).
Proof.
  intros Hf Hv He Hp Hle.
  unfold github_webhook. rewrite Hf, Hv. unfold process. rewrite He.
  unfold score_and_award. rewrite Hp.
  assert (Hlt : (0 <? points) = false) by (apply Z.ltb_ge; exact Hle).
  now rewrite Hlt.
Qed.

Lemma nonpositive_points_skip_award_witness :
  github_webhook example_world example_db 1
    (signed_request example_world "0102" example_body
       (example_payload (example_pull_request (PStr "Fixes #7") (PBool true))))
  = mk_handled example_db [] (Ok ("", 204)).
Proof.
  apply (nonpositive_points_skip_award example_world example_db 1 "0102" 55
           "acme/widget" _
           (mk_event (PStr "alice") (PInt 9) (PStr "Add widget")
              (PStr "https://github.com/acme/widget/pull/9") 7) 0);
    reflexivity.
Defined.

(** C10: payload parsing is partial. A routed and signed request whose
    payload has the action [closed] but no [pull_request], or whose
    [pull_request] lacks [merged], [user], [user.login], [number], [title]
    or [html_url], ends in an uncaught [KeyError]; a [pull_request] that is
    [null] ends in a [TypeError]. The client sees 500, not 204. *)
Theorem payload_parsing_partial (w : world) (d : db) (repo_id : Z)
  (secret : string) (channel_id : Z) (repo_name : string) (body : list byte) :
  fetch_repo_config (repositories d) repo_id
  = Some (secret, channel_id, repo_name) ->
  let full := example_pull_request (PStr "Fixes #42") (PBool true) in
  let answer payload :=
    github_webhook w d repo_id (signed_request w secret body payload) in
  answer (without "pull_request" (example_payload full))
  = mk_handled d [] (Raise KeyError) /\
  (forall field,
      In field ["merged"; "user"; "number"; "title"; "html_url"] ->
      answer (example_payload (without field full))
      = mk_handled d [] (Raise KeyError)) /\
  answer (example_payload
            (PDict [("merged", PBool true); ("user", PDict []);
                    ("number", PInt 9); ("title", PStr "Add widget");
                    ("html_url", PStr "https://github.com/acme/widget/pull/9")]))
  = mk_handled d [] (Raise KeyError) /\
  answer (example_payload PNone) = mk_handled d [] (Raise TypeError) /\
  http_status (h_response (answer (without "pull_request" (example_payload full))))
  = 500.
Proof.
  intros Hf full answer.
  assert (Hgate : forall payload,
             answer payload
             = process w d repo_id channel_id repo_name
                 (signed_request w secret body payload)).
  { intros payload. unfold answer, github_webhook. rewrite Hf.
    now rewrite (verify_signature_sign w secret
                   (signed_request w secret body payload) eq_refl). }
  repeat split.
  - rewrite Hgate. reflexivity.
  - intros field Hin. rewrite Hgate. simpl in Hin.
    repeat (destruct Hin as [<-|Hin]; [reflexivity|]). contradiction.
  - rewrite Hgate. reflexivity.
  - rewrite Hgate. reflexivity.
  - rewrite Hgate. reflexivity.
Qed.

Lemma payload_parsing_partial_witness :
  github_webhook example_world example_db 1
    (signed_request example_world "0102" example_body
       (PDict [("action", PStr "closed"); ("number", PInt 9)]))
  = mk_handled example_db [] (Raise KeyError).
Proof.
  apply (payload_parsing_partial example_world example_db 1 "0102" 55
           "acme/widget" example_body eq_refl).
Defined.

(** ** Registration *)

Lemma unhex_hex_of_byte b rest :
  unhex (hex_of_byte b ++ rest)%list = b :: unhex rest.
Proof. destruct b; reflexivity. Qed.

Lemma hex_injective bs1 bs2 : hex bs1 = hex bs2 -> bs1 = bs2.
Proof.
  unfold hex. intros H.
  apply (f_equal list_ascii_of_string) in H.
  rewrite !list_ascii_of_string_of_list_ascii in H.
  assert (Hu : forall bs, unhex (flat_map hex_of_byte bs) = bs).
  { induction bs as [|b bs IH]; [reflexivity|].
    cbn [flat_map]. now rewrite unhex_hex_of_byte, IH. }
  rewrite <- (Hu bs1), <- (Hu bs2). now rewrite H.
Qed.

Lemma sign_injective w secret1 secret2 body :
  hmac_sha256 w (encode_utf8 secret1) body
  <> hmac_sha256 w (encode_utf8 secret2) body ->
  sign w secret1 body <> sign w secret2 body.
Proof.
  intros Hne H. apply Hne. unfold sign in H.
  cbn in H. repeat (injection H as H). now apply hex_injective.
Qed.

Section Upsert.

Variables (fresh_id guild_id : Z) (repo_name webhook_secret : string)
          (channel_id admin_user_id : Z).

Local Abbreviation upsert rows :=
  (upsert_repository rows fresh_id guild_id repo_name webhook_secret
                     channel_id admin_user_id).

Local Abbreviation new_row id :=
  (mk_repo id guild_id repo_name webhook_secret channel_id admin_user_id).

Lemma upsert_find rows :
  find_by_guild (fst (upsert rows)) guild_id = Some (new_row (snd (upsert rows))).
Proof.
  induction rows as [|r rows IH]; simpl.
  - now rewrite Z.eqb_refl.
  - destruct (r_guild_id r =? guild_id) eqn:E; simpl.
    + now rewrite Z.eqb_refl.
    + destruct (upsert_repository rows _ _ _ _ _ _) as [rest' id].
      simpl in *. now rewrite E.
Qed.

(** The id returned is the one the guild already had, if it had one. *)
Lemma upsert_keeps_id rows r :
  find_by_guild rows guild_id = Some r -> snd (upsert rows) = r_id r.
Proof.
  induction rows as [|r0 rows IH]; simpl; [discriminate|].
  destruct (r_guild_id r0 =? guild_id) eqn:E; simpl.
  - now intros [= ->].
  - intros H. specialize (IH H).
    destruct (upsert_repository rows _ _ _ _ _ _) as [rest' id].
    exact IH.
Qed.

Lemma upsert_ids rows :
  map r_id (fst (upsert rows)) = map r_id rows /\
  In (snd (upsert rows)) (map r_id rows)
  \/ map r_id (fst (upsert rows)) = (map r_id rows ++ [fresh_id])%list /\
     snd (upsert rows) = fresh_id.
Proof.
  induction rows as [|r rows IH]; simpl.
  - right. auto.
  - destruct (r_guild_id r =? guild_id) eqn:E; simpl.
    + left. auto.
    + destruct (upsert_repository rows _ _ _ _ _ _) as [rest' id].
      simpl in *. destruct IH as [[H1 H2]|[H1 H2]].
      * left. rewrite H1. auto.
      * right. rewrite H1. auto.
Qed.

(** With distinct ids below the sequence, the handler finds the row of
    the guild under the id returned. *)
Lemma upsert_fetch rows :
  NoDup (map r_id rows) ->
  Forall (fun r => r_id r < fresh_id) rows ->
  fetch_repo_config (fst (upsert rows)) (snd (upsert rows))
  = Some (webhook_secret, channel_id, repo_name).
Proof.
  intros Hnd Hlt. assert (Hids := upsert_ids).
  induction rows as [|r rows IH]; simpl.
  - now rewrite Z.eqb_refl.
  - destruct (r_guild_id r =? guild_id) eqn:E; simpl.
    + now rewrite Z.eqb_refl.
    + inversion Hnd as [|? ? Hnotin Hnd']; subst.
      inversion Hlt as [|? ? Hr Hlt']; subst.
      specialize (IH Hnd' Hlt'). specialize (Hids rows).
      destruct (upsert_repository rows _ _ _ _ _ _) as [rest' id].
      simpl in *.
      assert (Hne : (r_id r =? id) = false).
      { apply Z.eqb_neq. intros Heq.
        destruct Hids as [[_ Hin]|[_ ->]]; [|lia].
        apply Hnotin. now rewrite Heq. }
      now rewrite Hne.
Qed.

End Upsert.

Lemma register_keeps_ids_fresh w d guild_id admin_user_id repo_name channel_id
  random_bytes :
  repo_ids_fresh d ->
  repo_ids_fresh
    (fst (register w d guild_id admin_user_id repo_name channel_id random_bytes)).
Proof.
  intros [Hnd Hlt]. unfold register.
  assert (Hids := upsert_ids (repo_seq d) guild_id repo_name
                    (token_hex random_bytes) channel_id admin_user_id
                    (repositories d)).
  destruct (upsert_repository _ _ _ _ _ _ _) as [rows id]. simpl in *.
  unfold repo_ids_fresh. simpl.
  assert (Hall : forall l : list repo_row,
             Forall (fun r => r_id r < repo_seq d + 1) l
             <-> Forall (fun i => i < repo_seq d + 1) (map r_id l)).
  { intros l. rewrite Forall_map. reflexivity. }
  rewrite Hall.
  assert (Hold : Forall (fun i => i < repo_seq d + 1) (map r_id (repositories d))).
  { rewrite Forall_map. eapply Forall_impl; [|exact Hlt].
    cbv beta. intros; lia. }
  destruct Hids as [[-> _]|[-> _]].
  - split; assumption.
  - split.
    + apply NoDup_app; [assumption|repeat constructor; intros []|].
      intros i Hi [<-|[]]. apply in_map_iff in Hi as (r & Hr & Hin).
      rewrite Forall_forall in Hlt. specialize (Hlt r Hin). lia.
    + apply Forall_app. split; [assumption|]. repeat constructor. lia.
Qed.

(** C7: two registrations of one guild with fresh draws return different
    secrets and the same id; afterwards the row of the guild, which the
    handler finds under that id, holds the second secret. A request signed
    with the first secret is refused with 403 (its digest differing from
    the one under the second), one signed with the second passes the gate. *)
Theorem register_rotates_secret (w1 w2 : world) (d : db) (guild_id : Z)
  (admin1 admin2 : Z) (repo_name1 repo_name2 : string) (channel1 channel2 : Z)
  (random1 random2 : list byte) :
  repo_ids_fresh d ->
  random1 <> random2 ->
  let first := register w1 d guild_id admin1 repo_name1 channel1 random1 in
  let second :=
    register w2 (fst first) guild_id admin2 repo_name2 channel2 random2 in
  let old_secret := reg_webhook_secret (snd first) in
  let new_secret := reg_webhook_secret (snd second) in
  let id := reg_repo_id (snd first) in
  let d2 := fst second in
  old_secret <> new_secret /\
  reg_repo_id (snd second) = id /\
  find_by_guild (repositories d2) guild_id
  = Some (mk_repo id guild_id repo_name2 new_secret channel2 admin2) /\
  fetch_repo_config (repositories d2) id
  = Some (new_secret, channel2, repo_name2) /\
  scores d2 = scores d /\
  (forall w req,
      header_signature req = Some (sign w old_secret (data req)) ->
      hmac_sha256 w (encode_utf8 old_secret) (data req)
      <> hmac_sha256 w (encode_utf8 new_secret) (data req) ->
      github_webhook w d2 id req = mk_handled d2 [] (Abort 403)) /\
  (forall w req,
      header_signature req = Some (sign w new_secret (data req)) ->
      github_webhook w d2 id req
      = process w d2 id channel2 repo_name2 req).
Proof.
  intros Hfresh Hne first second old_secret new_secret id d2.
  assert (Hfresh1 : repo_ids_fresh (fst first))
    by apply (register_keeps_ids_fresh _ _ _ _ _ _ _ Hfresh).
  assert (Hfind1 := upsert_find (repo_seq d) guild_id repo_name1
                      (token_hex random1) channel1 admin1 (repositories d)).
  assert (Hfind2 := upsert_find (repo_seq (fst first)) guild_id repo_name2
                      (token_hex random2) channel2 admin2
                      (repositories (fst first))).
  assert (Hkeep := upsert_keeps_id (repo_seq (fst first)) guild_id repo_name2
                     (token_hex random2) channel2 admin2
                     (repositories (fst first))).
  destruct Hfresh1 as [Hnd1 Hlt1].
  assert (Hfetch := upsert_fetch (repo_seq (fst first)) guild_id repo_name2
                      (token_hex random2) channel2 admin2
                      (repositories (fst first)) Hnd1 Hlt1).
  subst first second old_secret new_secret id d2.
  unfold register in *.
  destruct (upsert_repository (repositories d) _ _ _ _ _ _) as [rows1 id1].
  cbn [fst snd repositories repo_seq scores reg_webhook_secret reg_repo_id] in *.
  specialize (Hkeep _ Hfind1). cbn [r_id] in Hkeep.
  destruct (upsert_repository rows1 _ _ _ _ _ _) as [rows2 id2].
  cbn [fst snd repositories repo_seq scores reg_webhook_secret reg_repo_id] in *.
  subst id2.
  assert (Hsec : token_hex random1 <> token_hex random2).
  { unfold token_hex. intros H. now apply hex_injective in H. }
  repeat split; try assumption.
  - intros w req Hh Hd.
    unfold github_webhook. cbn [repositories]. rewrite Hfetch.
    rewrite (verify_signature_mismatch w (token_hex random2) req
               (sign w (token_hex random1) (data req)) Hh);
      [reflexivity|apply prefix_sign|apply is_ascii_sign|].
    now apply sign_injective.
  - intros w req Hh. unfold github_webhook. cbn [repositories].
    rewrite Hfetch. now rewrite (verify_signature_sign w _ req Hh).
Qed.

Lemma register_rotates_secret_witness :
  let first :=
    register example_world init_db 1001 7 "acme/widget" 55 [x01; x02] in
  let second :=
    register example_world (fst first) 1001 7 "acme/gadget" 56 [x03; x04] in
  reg_webhook_secret (snd first) <> reg_webhook_secret (snd second) /\
  reg_repo_id (snd second) = reg_repo_id (snd first) /\
  github_webhook example_world (fst second) 1
    (signed_request example_world "0102" example_body (PDict []))
  = mk_handled (fst second) [] (Abort 403).
Proof.
  destruct (register_rotates_secret example_world example_world init_db 1001
              7 7 "acme/widget" "acme/gadget" 55 56 [x01; x02] [x03; x04])
    as (H1 & H2 & _ & _ & _ & H6 & _).
  - split; constructor.
  - discriminate.
  - split; [exact H1|]. split; [exact H2|].
    apply H6; [reflexivity|vm_compute; discriminate].
Defined.

(** ** The ledger only grows *)

Lemma points_of_labels_range labels :
  In (points_of_labels labels) [0; 5; 10; 20].
Proof.
  unfold points_of_labels.
  destruct (mem "hard" labels); [simpl; auto|].
  destruct (mem "medium" labels); [simpl; auto|].
  destruct (mem "easy" labels); simpl; auto.
Qed.

Lemma get_points_range w repo_name issue_number points :
  get_points_from_pr_labels w repo_name issue_number = Ok points ->
  In points [0; 5; 10; 20].
Proof.
  unfold get_points_from_pr_labels.
  destruct (requests_get w _) as [response| |]; cbn [bind]; try discriminate.
  destruct (negb (status_code response =? 200)); [intros [= <-]; simpl; auto|].
  destruct (response_json response) as [data| |]; cbn [bind]; try discriminate.
  destruct (label_names data) as [labels| |]; cbn [bind]; try discriminate.
  intros [= <-]. apply points_of_labels_range.
Qed.

Lemma score_and_award_scores w d repo_id channel_id repo_name ev :
  awards_once (scores d)
    (scores (h_db (score_and_award w d repo_id channel_id repo_name ev))).
Proof.
  unfold score_and_award.
  destruct (get_points_from_pr_labels w repo_name (ev_issue_number ev))
    as [points| |] eqn:Ep; try (left; reflexivity).
  destruct (0 <? points) eqn:Epos; [|left; reflexivity].
  destruct (ev_username ev) as [| | |username| |]; try (left; reflexivity).
  right. exists repo_id, username, points. split; [|reflexivity].
  apply get_points_range in Ep. apply Z.ltb_lt in Epos.
  simpl in Ep |- *. intuition lia.
Qed.

Lemma exec_scores w o d : awards_once (scores d) (scores (exec w o d)).
Proof.
  destruct o as [repo_id req|guild_id admin repo_name channel random|guild_id];
    simpl.
  - unfold github_webhook.
    destruct (fetch_repo_config (repositories d) repo_id)
      as [[[secret channel_id] repo_name]|]; [|left; reflexivity].
    destruct (verify_signature w secret req); try (left; reflexivity).
    unfold process.
    destruct (payload <- json req ;; extract payload) as [[ev|]| |];
      try (left; reflexivity).
    apply score_and_award_scores.
  - left. unfold register.
    destruct (upsert_repository _ _ _ _ _ _ _). reflexivity.
  - left. reflexivity.
Qed.

Lemma select_points_none_iff rows repo_id username :
  select_points rows repo_id username = None
  <-> ~ In (repo_id, username) (map key_of rows).
Proof.
  induction rows as [|r rows IH]; simpl; [tauto|].
  unfold score_key, key_of at 1.
  destruct (Z.eqb_spec (s_repo_id r) repo_id) as [E1|E1];
    destruct (String.eqb_spec (s_github_username r) username) as [E2|E2];
    cbn [andb].
  - subst. split; [discriminate|]. intros H. exfalso. apply H. now left.
  - rewrite IH. split; [|tauto]. intros H [Heq|Hin]; [congruence|tauto].
  - rewrite IH. split; [|tauto]. intros H [Heq|Hin]; [congruence|tauto].
  - rewrite IH. split; [|tauto]. intros H [Heq|Hin]; [congruence|tauto].
Qed.

Lemma keys_sql_update rows n repo_id username :
  map key_of (sql_update_points rows n repo_id username) = map key_of rows.
Proof.
  unfold sql_update_points. rewrite map_map. apply map_ext.
  intros r. now destruct (score_key repo_id username r).
Qed.

Lemma select_points_in rows repo_id username p :
  select_points rows repo_id username = Some p ->
  exists r, In r rows /\ s_points r = p.
Proof.
  induction rows as [|r rows IH]; simpl; [discriminate|].
  destruct (score_key repo_id username r).
  - intros [= <-]. eauto.
  - intros H. destruct (IH H) as (r' & Hin & Hp). eauto.
Qed.

Lemma update_score_wf rows repo_id username p :
  0 <= p -> scores_wf rows ->
  scores_wf (update_score rows repo_id username p).
Proof.
  intros Hp [Hnd Hpos]. unfold update_score.
  destruct (select_points rows repo_id username) as [q|] eqn:E.
  - split; [now rewrite keys_sql_update|].
    apply select_points_in in E as (r0 & Hin0 & Hq).
    rewrite Forall_forall in Hpos. assert (H0 := Hpos r0 Hin0).
    unfold sql_update_points. rewrite Forall_map. apply Forall_forall.
    intros r Hin. destruct (score_key repo_id username r); simpl; [lia|auto].
  - unfold sql_insert_score. split.
    + rewrite map_app. simpl. apply NoDup_app; [assumption| |].
      * repeat constructor. intros [].
      * intros k Hk [<-|[]]. apply select_points_none_iff in E.
        apply E. exact Hk.
    + apply Forall_app. split; [assumption|]. repeat constructor. exact Hp.
Qed.

Lemma awards_once_wf before after :
  awards_once before after -> scores_wf before -> scores_wf after.
Proof.
  intros [->|(repo_id & username & p & Hp & ->)] Hwf; [assumption|].
  apply update_score_wf; [|assumption]. simpl in Hp. intuition lia.
Qed.

Lemma awards_once_monotone before after repo_id username p :
  awards_once before after ->
  select_points before repo_id username = Some p ->
  exists p', select_points after repo_id username = Some p' /\ p <= p'.
Proof.
  intros [->|(r & u & q & Hq & ->)] Hs; [exists p; split; [assumption|lia]|].
  destruct (Z.eq_dec repo_id r) as [->|Hr].
  - destruct (string_dec username u) as [->|Hu].
    + exists (p + q). rewrite select_points_update_score_same.
      unfold total. rewrite Hs. split; [reflexivity|].
      simpl in Hq. intuition lia.
    + exists p. rewrite select_points_update_score_other by congruence.
      split; [assumption|lia].
  - exists p. rewrite select_points_update_score_other by congruence.
    split; [assumption|lia].
Qed.

Lemma reachable_scores_wf d : reachable d -> scores_wf (scores d).
Proof.
  induction 1 as [|w o d _ IH].
  - split; constructor.
  - exact (awards_once_wf _ _ (exec_scores w o d) IH).
Qed.

Lemma webhook_keeps_repositories w d repo_id req :
  repositories (h_db (github_webhook w d repo_id req)) = repositories d /\
  repo_seq (h_db (github_webhook w d repo_id req)) = repo_seq d.
Proof.
  unfold github_webhook.
  destruct (fetch_repo_config (repositories d) repo_id)
    as [[[secret channel_id] repo_name]|]; [|split; reflexivity].
  destruct (verify_signature w secret req); try (split; reflexivity).
  unfold process.
  destruct (payload <- json req ;; extract payload) as [[ev|]| |];
    try (split; reflexivity).
  unfold score_and_award.
  destruct (get_points_from_pr_labels w repo_name (ev_issue_number ev))
    as [points| |]; try (split; reflexivity).
  destruct (0 <? points); [|split; reflexivity].
  destruct (ev_username ev); split; reflexivity.
Qed.

(** Every reachable state has the distinct ids registration relies on. *)
Lemma reachable_repo_ids_fresh d : reachable d -> repo_ids_fresh d.
Proof.
  induction 1 as [|w o d _ IH].
  - split; constructor.
  - destruct o as [repo_id req|guild_id admin repo_name channel random|guild_id];
      simpl.
    + destruct (webhook_keeps_repositories w d repo_id req) as [Hr Hs].
      unfold repo_ids_fresh. now rewrite Hr, Hs.
    + now apply register_keeps_ids_fresh.
    + exact IH.
Qed.

Lemma step_call_nonneg rows c :
  Forall (fun r => 0 <= s_points r) rows -> call_nonneg c ->
  Forall (fun r => 0 <= s_points r) (fst (step_call rows c)) /\
  call_nonneg (snd (step_call rows c)).
Proof.
  intros Hrows [Hp Hq]. unfold step_call.
  destruct (c_pc c) as [|[q|]|] eqn:Hpc; cbn [fst snd].
  - split; [assumption|]. split; [exact Hp|].
    cbn [c_pc at_pc]. intros q [= Hsel].
    apply select_points_in in Hsel as (r & Hin & <-).
    rewrite Forall_forall in Hrows. now apply Hrows.
  - split.
    + unfold sql_update_points. rewrite Forall_map. rewrite Forall_forall in *.
      intros r Hr. specialize (Hq q eq_refl).
      destruct (score_key (c_repo_id c) (c_username c) r); cbn [s_points];
        [lia|now apply Hrows].
    + split; [exact Hp|]. cbn [c_pc at_pc]. discriminate.
  - split.
    + unfold sql_insert_score. apply Forall_app. split; [assumption|].
      repeat constructor. exact Hp.
    + split; [exact Hp|]. cbn [c_pc at_pc]. discriminate.
  - split; [assumption|]. split; [exact Hp|]. rewrite Hpc. discriminate.
Qed.

Lemma step_nth_nonneg i : forall calls rows,
  Forall (fun r => 0 <= s_points r) rows -> Forall call_nonneg calls ->
  Forall (fun r => 0 <= s_points r) (fst (step_nth i rows calls)) /\
  Forall call_nonneg (snd (step_nth i rows calls)).
Proof.
  induction i as [|j IH]; intros [|c cs] rows Hrows Hcalls; cbn [step_nth];
    try (split; assumption).
  - inversion Hcalls as [|? ? Hc Hcs]; subst.
    destruct (step_call_nonneg rows c Hrows Hc) as [H1 H2].
    destruct (step_call rows c) as [rows' c']. cbn [fst snd] in *.
    split; [assumption|now constructor].
  - inversion Hcalls as [|? ? Hc Hcs]; subst.
    destruct (IH cs rows Hrows Hcs) as [H1 H2].
    destruct (step_nth j rows cs) as [rows' cs']. cbn [fst snd] in *.
    split; [assumption|now constructor].
Qed.

Lemma run_nonneg schedule : forall calls rows,
  Forall (fun r => 0 <= s_points r) rows -> Forall call_nonneg calls ->
  Forall (fun r => 0 <= s_points r) (fst (run schedule rows calls)).
Proof.
  induction schedule as [|i later IH]; intros calls rows Hrows Hcalls;
    cbn [run]; [assumption|].
  destruct (step_nth_nonneg i calls rows Hrows Hcalls) as [H1 H2].
  destruct (step_nth i rows calls) as [rows' calls']. cbn [fst snd] in *.
  now apply IH.
Qed.

(** C9, as amended: in every state reached by operations that run one at a
    time each contributor has one row and its points are not negative, and
    every operation (webhook, registration, leaderboard) either leaves
    [scores] alone or awards 5, 10 or 20 once, so that no stored total
    decreases from one operation to the next. Where awards interleave, the
    stored points stay non-negative at every point. *)
Theorem scores_nonnegative_and_monotone :
  (forall d,
      reachable d ->
      Forall (fun r => 0 <= s_points r) (scores d) /\
      NoDup (map key_of (scores d)) /\
      forall w o,
        awards_once (scores d) (scores (exec w o d)) /\
        forall repo_id username p,
          select_points (scores d) repo_id username = Some p ->
          exists p',
            select_points (scores (exec w o d)) repo_id username = Some p' /\
            p <= p') /\
  (forall rows calls schedule,
      Forall (fun r => 0 <= s_points r) rows ->
      Forall fresh_award calls ->
      Forall (fun r => 0 <= s_points r) (fst (run schedule rows calls))).
Proof.
  split.
  - intros d Hr. destruct (reachable_scores_wf d Hr) as [Hnd Hpos].
    split; [assumption|]. split; [assumption|].
    intros w o. split; [apply exec_scores|].
    intros repo_id username p. apply awards_once_monotone, exec_scores.
  - intros rows calls schedule Hrows Hcalls. apply run_nonneg; [assumption|].
    eapply Forall_impl; [|exact Hcalls].
    intros c [Hpc Hin]. split.
    + simpl in Hin. intuition lia.
    + rewrite Hpc. discriminate.
Qed.

Lemma scores_nonnegative_and_monotone_witness :
  Forall (fun r => 0 <= s_points r) (scores example_scored_db) /\
  (exists p',
      select_points
        (scores (exec example_world
                   (OpWebhook 1
                      (signed_request example_world "0102" example_body
                         (example_payload
                            (example_pull_request (PStr "Fixes #42")
                                                  (PBool true)))))
                   example_scored_db)) 1 "alice" = Some p' /\
      10 <= p') /\
  Forall (fun r => 0 <= s_points r)
         (fst (run [0; 1; 1; 0]%nat [mk_score 1 "alice" 5]
                   (awards 1 "alice" [5; 20]))).
Proof.
  destruct scores_nonnegative_and_monotone as [Hserial Hinter].
  destruct (Hserial example_scored_db) as (Hpos & _ & Hop).
  - apply (reachable_step example_world
             (OpWebhook 1
                (signed_request example_world "0102" example_body
                   (example_payload
                      (example_pull_request (PStr "Fixes #42") (PBool true)))))
             example_db).
    apply (reachable_step example_world
             (OpRegister 1001 7 "acme/widget" 55 [x01; x02]) init_db).
    apply reachable_init.
  - split; [exact Hpos|]. split.
    + apply (proj2 (Hop example_world _) 1 "alice" 10). reflexivity.
    + apply Hinter.
      * constructor; [simpl; lia|constructor].
      * constructor; [split; [reflexivity|simpl; auto]|].
        constructor; [split; [reflexivity|simpl; auto]|constructor].
Defined.

(** C9 fails as stated: webhooks are handled concurrently, and between the
    statements of two interleaved awards a stored total drops. With 5
    stored and awards of 5 and 20, the second call has written 25 when the
    first, which read 5 before, writes 10. *)
Lemma stored_total_drops_counterexample :
  let rows := [mk_score 1 "alice" 5] in
  let calls := awards 1 "alice" [5; 20] in
  total (fst (run [0; 1; 1]%nat rows calls)) 1 "alice" = 25 /\
  total (fst (run [0; 1; 1; 0]%nat rows calls)) 1 "alice" = 10 /\
  ~ totals_never_decrease.
Proof.
  split; [reflexivity|]. split; [reflexivity|].
  intros H.
  specialize (H [mk_score 1 "alice" 5] 1 "alice" [5; 20] [0; 1; 1]%nat 0%nat).
  assert (Hps : Forall (fun p => In p [5; 10; 20]) [5; 20]).
  { constructor; [simpl; auto|]. constructor; [simpl; auto|constructor]. }
  specialize (H Hps). vm_compute in H. now apply H.
Qed.

(** ** Examples *)

(** The first end-to-end scenario of the specification: guild 1001
    registers [acme/widget]; a signed payload of a merged pull request that
    says [Fixes #42], issue 42 being labelled medium, puts the author at 10
    points, and the leaderboard lists the author first. *)
Example end_to_end_medium :
  let req :=
    signed_request example_world "0102" example_body
      (example_payload (example_pull_request (PStr "Fixes #42") (PBool true))) in
  let after := github_webhook example_world example_db 1 req in
  h_response after = Ok ("", 204) /\
  scores (h_db after) = [mk_score 1 "alice" 10] /\
  h_sent after
  = [mk_notification 55 (PStr "Add widget")
       (PStr "https://github.com/acme/widget/pull/9") "alice" 10] /\
  leaderboard (h_db after) 1001 = [("alice", 10)].
Proof. repeat split; reflexivity. Qed.

(** The second: without the header the answer is 400 and nothing is
    stored. *)
Example end_to_end_unsigned :
  github_webhook example_world example_db 1
    (mk_request None example_body
       (Ok (example_payload
              (example_pull_request (PStr "Fixes #42") (PBool true)))))
  = mk_handled example_db [] (Abort 400).
Proof. reflexivity. Qed.

(** A header with the prefix and a character outside ASCII is neither
    refused with 400 nor with 403: [hmac.compare_digest] raises. *)
Remark non_ascii_signature_raises :
  github_webhook example_world example_db 1
    (mk_request (Some ("sha256=" ++ String (ascii_of_N 233) ""))
                example_body (Ok (PDict [])))
  = mk_handled example_db [] (Raise TypeError).
Proof. reflexivity. Qed.

(** Between the statements of interleaved calls a stored total can drop. *)
Remark interleaved_total_drops :
  let rows := [mk_score 1 "alice" 5] in
  let calls := awards 1 "alice" [5; 20] in
  total (fst (run [0; 1; 1]%nat rows calls)) 1 "alice" = 25 /\
  total (fst (run [0; 1; 1; 0]%nat rows calls)) 1 "alice" = 10.
Proof. split; reflexivity. Qed.

(** A description that is neither text nor false stops the handler. *)
Remark numeric_description_raises :
  extract (example_payload (example_pull_request (PInt 5) (PBool true)))
  = Raise TypeError.
Proof. reflexivity. Qed.

(** * Further properties of the code *)

(** ** The leaderboard *)

Lemma insert_desc_perm x l : Permutation (insert_desc x l) (x :: l).
Proof.
  induction l as [|y l IH]; simpl; [reflexivity|].
  destruct (snd y <=? snd x); [reflexivity|].
  rewrite IH. apply perm_swap.
Qed.

Lemma order_by_points_desc_perm l : Permutation (order_by_points_desc l) l.
Proof.
  unfold order_by_points_desc.
  induction l as [|x l IH]; simpl; [reflexivity|].
  rewrite insert_desc_perm. now constructor.
Qed.

Lemma insert_desc_sorted x l :
  StronglySorted by_points_desc l ->
  StronglySorted by_points_desc (insert_desc x l).
Proof.
  induction 1 as [|y l Hs IH Hall]; simpl.
  - repeat constructor.
  - destruct (Z.leb_spec (snd y) (snd x)) as [Hle|Hgt].
    + constructor; [now constructor|].
      constructor; [exact Hle|].
      eapply Forall_impl; [|exact Hall].
      unfold by_points_desc. intros z Hz. lia.
    + constructor; [exact IH|].
      rewrite Forall_forall. intros z Hz.
      apply (Permutation_in _ (insert_desc_perm x l)) in Hz.
      destruct Hz as [<-|Hz].
      * unfold by_points_desc. lia.
      * rewrite Forall_forall in Hall. now apply Hall.
Qed.

Lemma order_by_points_desc_sorted l :
  StronglySorted by_points_desc (order_by_points_desc l).
Proof.
  unfold order_by_points_desc.
  induction l as [|x l IH]; simpl; [constructor|].
  now apply insert_desc_sorted.
Qed.

Lemma firstn_incl {A : Type} n : forall (l : list A) x,
  In x (firstn n l) -> In x l.
Proof.
  induction n as [|n IH]; intros [|y l] x; simpl; try tauto.
  intros [->|H]; [now left|right; now apply IH].
Qed.

Lemma firstn_sorted {A : Type} (R : A -> A -> Prop) n : forall l,
  StronglySorted R l -> StronglySorted R (firstn n l).
Proof.
  induction n as [|n IH]; intros l Hs; [constructor|].
  destruct Hs as [|y l Hs Hall]; simpl; [constructor|].
  constructor; [now apply IH|].
  rewrite Forall_forall in *. intros z Hz. apply Hall.
  now apply (firstn_incl n).
Qed.

Lemma sorted_app_cross {A : Type} (R : A -> A -> Prop) l1 : forall l2 a b,
  StronglySorted R (l1 ++ l2) -> In a l1 -> In b l2 -> R a b.
Proof.
  induction l1 as [|x l1 IH]; intros l2 a b Hs Ha Hb; [destruct Ha|].
  simpl in Hs. apply StronglySorted_inv in Hs as [Hs Hall].
  destruct Ha as [<-|Ha].
  - rewrite Forall_forall in Hall. apply Hall. apply in_or_app. now right.
  - now apply (IH l2).
Qed.

(** X1: the leaderboard has at most ten rows, in descending order of
    points. *)
Theorem leaderboard_sorted_top10 (d : db) (guild_id : Z) :
  (List.length (leaderboard d guild_id) <= 10)%nat /\
  StronglySorted by_points_desc (leaderboard d guild_id).
Proof.
  unfold leaderboard. split.
  - apply firstn_le_length.
  - apply firstn_sorted, order_by_points_desc_sorted.
Qed.

Lemma guild_scores_in d guild_id username points :
  In (username, points) (guild_scores d guild_id) <->
  exists s r,
    In s (scores d) /\ In r (repositories d) /\
    s_repo_id s = r_id r /\ r_guild_id r = guild_id /\
    s_github_username s = username /\ s_points s = points.
Proof.
  unfold guild_scores. rewrite in_flat_map. split.
  - intros (s & Hs & Hin). apply in_flat_map in Hin as (r & Hr & Hin).
    destruct (Z.eqb_spec (s_repo_id s) (r_id r)) as [E1|E1];
      destruct (Z.eqb_spec (r_guild_id r) guild_id) as [E2|E2];
      simpl in Hin; try contradiction.
    destruct Hin as [[= <- <-]|[]]. exists s, r. repeat split; assumption.
  - intros (s & r & Hs & Hr & E1 & E2 & <- & <-).
    exists s. split; [assumption|]. apply in_flat_map. exists r.
    split; [assumption|].
    rewrite E1, E2, !Z.eqb_refl. simpl. now left.
Qed.

(** X2: every row shown is a stored row of a repository of the guild. *)
Theorem leaderboard_shows_stored_rows (d : db) (guild_id : Z)
  (username : string) (points : Z) :
  In (username, points) (leaderboard d guild_id) ->
  exists s r,
    In s (scores d) /\ In r (repositories d) /\
    s_repo_id s = r_id r /\ r_guild_id r = guild_id /\
    s_github_username s = username /\ s_points s = points.
Proof.
  intros H. unfold leaderboard in H. apply firstn_incl in H.
  apply (Permutation_in _ (order_by_points_desc_perm _)) in H.
  now apply guild_scores_in.
Qed.

Lemma leaderboard_all_shown d guild_id :
  (List.length (guild_scores d guild_id) <= 10)%nat ->
  Permutation (leaderboard d guild_id) (guild_scores d guild_id).
Proof.
  intros Hlen. unfold leaderboard. rewrite firstn_all2.
  - apply order_by_points_desc_perm.
  - now rewrite (Permutation_length (order_by_points_desc_perm _)).
Qed.

(** X3: nothing better is left out. A joined row that is not shown has no
    more points than any row shown, and with at most ten joined rows all of
    them are shown. *)
Theorem leaderboard_keeps_the_best (d : db) (guild_id : Z) :
  (forall x y,
      In x (guild_scores d guild_id) ->
      In y (leaderboard d guild_id) ->
      In x (leaderboard d guild_id) \/ snd x <= snd y) /\
  ((List.length (guild_scores d guild_id) <= 10)%nat ->
   Permutation (leaderboard d guild_id) (guild_scores d guild_id)).
Proof.
  split; [|apply leaderboard_all_shown].
  unfold leaderboard. intros x y Hx Hy.
  set (sorted := order_by_points_desc (guild_scores d guild_id)) in *.
  assert (Hs : StronglySorted by_points_desc sorted)
    by apply order_by_points_desc_sorted.
  apply (Permutation_in _ (Permutation_sym (order_by_points_desc_perm _)))
    in Hx. fold sorted in Hx.
  rewrite <- (firstn_skipn 10 sorted) in Hx, Hs.
  apply in_app_or in Hx as [Hx|Hx]; [now left|right].
  exact (sorted_app_cross _ _ _ y x Hs Hy Hx).
Qed.

Lemma leaderboard_shows_stored_rows_witness :
  exists s r,
    In s (scores example_scored_db) /\ In r (repositories example_scored_db) /\
    s_repo_id s = r_id r /\ r_guild_id r = 1001 /\
    s_github_username s = "alice" /\ s_points s = 10.
Proof.
  apply (leaderboard_shows_stored_rows example_scored_db 1001 "alice" 10).
  left. reflexivity.
Defined.

Lemma leaderboard_keeps_the_best_witness :
  Permutation (leaderboard example_scored_db 1001)
              (guild_scores example_scored_db 1001).
Proof.
  apply (proj2 (leaderboard_keeps_the_best example_scored_db 1001)).
  simpl. lia.
Defined.

Lemma guild_scores_unregistered d guild_id :
  find_by_guild (repositories d) guild_id = None ->
  guild_scores d guild_id = [].
Proof.
  intros Hnone. unfold guild_scores.
  assert (Hrow : forall s,
             flat_map (fun r =>
               if (s_repo_id s =? r_id r) && (r_guild_id r =? guild_id)
               then [(s_github_username s, s_points s)] else [])
               (repositories d) = []).
  { intros s. induction (repositories d) as [|r rows IH]; [reflexivity|].
    simpl in Hnone |- *.
    destruct (r_guild_id r =? guild_id); [discriminate|].
    rewrite andb_false_r. simpl. now apply IH. }
  induction (scores d) as [|s rows IH]; [reflexivity|].
  simpl. now rewrite Hrow, IH.
Qed.

Lemma leaderboard_nil_iff d guild_id :
  leaderboard d guild_id = [] <-> guild_scores d guild_id = [].
Proof.
  unfold leaderboard. split.
  - intros H.
    destruct (order_by_points_desc (guild_scores d guild_id)) as [|x l] eqn:E.
    + apply Permutation_nil. rewrite <- E.
      apply order_by_points_desc_perm.
    + discriminate H.
  - intros ->. reflexivity.
Qed.

(** X4: the command answers with the plain message exactly when no score
    row joins a repository of the guild; a guild that never registered gets
    that message too, whatever is stored for others. *)
Theorem leaderboard_reply_empty (d : db) (guild_id : Z) :
  (leaderboard_reply d guild_id
   = Message "The leaderboard is currently empty for the registered repository."
   <-> guild_scores d guild_id = []) /\
  (find_by_guild (repositories d) guild_id = None ->
   leaderboard_reply d guild_id
   = Message "The leaderboard is currently empty for the registered repository.").
Proof.
  assert (Hiff : leaderboard_reply d guild_id
     = Message "The leaderboard is currently empty for the registered repository."
     <-> guild_scores d guild_id = []).
  { rewrite <- leaderboard_nil_iff. unfold leaderboard_reply.
    destruct (leaderboard d guild_id); split; try reflexivity; discriminate. }
  split; [exact Hiff|].
  intros Hnone. apply Hiff. now apply guild_scores_unregistered.
Qed.

Lemma leaderboard_reply_empty_witness :
  leaderboard_reply example_scored_db 2002
  = Message "The leaderboard is currently empty for the registered repository.".
Proof.
  apply (proj2 (leaderboard_reply_empty example_scored_db 2002)).
  reflexivity.
Defined.

(** ** More on [update_score] *)

(** X5: after a call the contributor reads back the previous total plus the
    amount, and every other contributor reads back what was there. *)
Theorem update_score_lookup (rows : list score_row) (repo_id : Z)
  (username : string) (p : Z) :
  select_points (update_score rows repo_id username p) repo_id username
  = Some (total rows repo_id username + p) /\
  forall repo_id' username',
    (repo_id', username') <> (repo_id, username) ->
    select_points (update_score rows repo_id username p) repo_id' username'
    = select_points rows repo_id' username'.
Proof.
  split.
  - apply select_points_update_score_same.
  - intros repo_id' username' Hne. now apply select_points_update_score_other.
Qed.

Lemma update_score_lookup_witness :
  select_points (update_score [mk_score 1 "alice" 5] 1 "bob" 10) 1 "alice"
  = select_points [mk_score 1 "alice" 5] 1 "alice".
Proof.
  apply (proj2 (update_score_lookup [mk_score 1 "alice" 5] 1 "bob" 10)).
  discriminate.
Defined.

Lemma filter_others_update rows n repo_id username :
  filter (fun s => negb (score_key repo_id username s))
         (sql_update_points rows n repo_id username)
  = filter (fun s => negb (score_key repo_id username s)) rows.
Proof.
  unfold sql_update_points.
  induction rows as [|r rows IH]; simpl; [reflexivity|].
  destruct (score_key repo_id username r) eqn:K; simpl.
  - unfold score_key in K |- *. simpl. rewrite K. simpl. exact IH.
  - rewrite K. simpl. now rewrite IH.
Qed.

(** X6: a call rewrites the rows of its contributor or, when there is none,
    adds one row at the end; the rows of all others stay as they are and in
    their order, and one row per contributor stays one row per
    contributor. *)
Theorem update_score_rows (rows : list score_row) (repo_id : Z)
  (username : string) (p : Z) :
  let rows' := update_score rows repo_id username p in
  (forall q, select_points rows repo_id username = Some q ->
             map key_of rows' = map key_of rows) /\
  (select_points rows repo_id username = None ->
   rows' = (rows ++ [mk_score repo_id username p])%list) /\
  filter (fun s => negb (score_key repo_id username s)) rows'
  = filter (fun s => negb (score_key repo_id username s)) rows /\
  (NoDup (map key_of rows) -> NoDup (map key_of rows')).
Proof.
  intros rows'. subst rows'. unfold update_score.
  destruct (select_points rows repo_id username) as [q|] eqn:E.
  - split; [intros _ _; apply keys_sql_update|].
    split; [discriminate|].
    split; [apply filter_others_update|].
    now rewrite keys_sql_update.
  - split; [discriminate|]. split; [reflexivity|]. split.
    + unfold sql_insert_score. rewrite filter_app. simpl.
      assert (K : score_key repo_id username (mk_score repo_id username p) = true)
        by apply (score_key_refl_of (mk_score repo_id username p)).
      rewrite K. simpl. now rewrite app_nil_r.
    + intros Hnd. unfold sql_insert_score. rewrite map_app. simpl.
      apply NoDup_app; [assumption|repeat constructor; intros []|].
      intros k Hk [<-|[]]. apply select_points_none_iff in E. now apply E.
Qed.

Lemma update_score_rows_witness :
  update_score [mk_score 1 "alice" 5] 1 "bob" 10
  = [mk_score 1 "alice" 5; mk_score 1 "bob" 10] /\
  NoDup (map key_of (update_score [mk_score 1 "alice" 5] 1 "alice" 10)).
Proof.
  split.
  - apply (update_score_rows [mk_score 1 "alice" 5] 1 "bob" 10). reflexivity.
  - apply (update_score_rows [mk_score 1 "alice" 5] 1 "alice" 10).
    repeat constructor. intros [].
Defined.

(** X7: two calls commute as far as any lookup can tell. *)
Theorem update_score_commutes (rows : list score_row) (repo_id1 repo_id2 : Z)
  (username1 username2 : string) (p1 p2 : Z) (repo_id : Z) (username : string) :
  select_points
    (update_score (update_score rows repo_id1 username1 p1)
                  repo_id2 username2 p2) repo_id username
  = select_points
      (update_score (update_score rows repo_id2 username2 p2)
                    repo_id1 username1 p1) repo_id username.
Proof.
  assert (Hdec : forall (a b : Z * string), a = b \/ a <> b).
  { intros [a1 a2] [b1 b2].
    destruct (Z.eq_dec a1 b1) as [->|]; [|right; congruence].
    destruct (string_dec a2 b2) as [->|]; [now left|right; congruence]. }
  destruct (Hdec (repo_id1, username1) (repo_id2, username2)) as [[= -> ->]|H12].
  - destruct (Hdec (repo_id, username) (repo_id2, username2)) as [[= -> ->]|H].
    + rewrite !select_points_update_score_same.
      unfold total. rewrite !select_points_update_score_same. f_equal. lia.
    + now rewrite !select_points_update_score_other.
  - destruct (Hdec (repo_id, username) (repo_id1, username1)) as [[= -> ->]|H1].
    + rewrite select_points_update_score_other by congruence.
      rewrite !select_points_update_score_same. unfold total.
      rewrite select_points_update_score_other by congruence. reflexivity.
    + rewrite (select_points_update_score_other
                 (update_score rows repo_id2 username2 p2)) by exact H1.
      destruct (Hdec (repo_id, username) (repo_id2, username2))
        as [[= -> ->]|H2].
      * rewrite !select_points_update_score_same. unfold total.
        rewrite select_points_update_score_other by exact H1. reflexivity.
      * rewrite !select_points_update_score_other by assumption. reflexivity.
Qed.

(** ** More on the label scorer *)

(** X8: whatever GitHub answers, an amount the scorer returns is 0, 5, 10
    or 20, and it is positive only on a 200 response whose lowered label
    names hold [hard], [medium] or [easy]. *)
Theorem points_only_0_5_10_20 (w : world) (repo_name : string)
  (issue_number p : Z) :
  get_points_from_pr_labels w repo_name issue_number = Ok p ->
  In p [0; 5; 10; 20] /\
  (0 < p ->
   exists response data labels,
     requests_get w (issue_url repo_name issue_number) = Ok response /\
     status_code response = 200 /\
     response_json response = Ok data /\
     label_names data = Ok labels /\
     (mem "hard" labels = true \/ mem "medium" labels = true
      \/ mem "easy" labels = true)).
Proof.
  intros H. split; [now apply get_points_range in H|].
  intros Hpos. unfold get_points_from_pr_labels in H.
  destruct (requests_get w (issue_url repo_name issue_number))
    as [response| |]; cbn [bind] in H; try discriminate.
  destruct (Z.eqb_spec (status_code response) 200) as [Es|Es];
    cbn [negb] in H; [|injection H as <-; lia].
  destruct (response_json response) as [data| |] eqn:Ej; cbn [bind] in H;
    try discriminate.
  destruct (label_names data) as [labels| |] eqn:El; cbn [bind] in H;
    try discriminate.
  exists response, data, labels.
  split; [reflexivity|]. split; [exact Es|]. split; [exact Ej|].
  split; [exact El|].
  injection H as <-. unfold points_of_labels in Hpos.
  destruct (mem "hard" labels); [now left|].
  destruct (mem "medium" labels); [right; now left|].
  destruct (mem "easy" labels); [right; now right|lia].
Qed.

Lemma points_only_0_5_10_20_witness :
  In 10 [0; 5; 10; 20] /\
  exists response data labels,
    requests_get example_world (issue_url "acme/widget" 42) = Ok response /\
    status_code response = 200 /\
    response_json response = Ok data /\
    label_names data = Ok labels /\
    (mem "hard" labels = true \/ mem "medium" labels = true
     \/ mem "easy" labels = true).
Proof.
  destruct (points_only_0_5_10_20 example_world "acme/widget" 42 10 eq_refl)
    as [Hin Hpos].
  split; [exact Hin|]. apply Hpos. reflexivity.
Defined.

(** X9: edge cases of a 200 response. An issue object without [labels]
    scores 0; a body that is not an object raises [AttributeError]; and
    [labels] being [null], a boolean or a number raises [TypeError]. *)
Theorem scorer_on_odd_bodies (w : world) (repo_name : string)
  (issue_number : Z) (response : http_response) (data : pyval) :
  requests_get w (issue_url repo_name issue_number) = Ok response ->
  status_code response = 200 ->
  response_json response = Ok data ->
  (forall kvs, data = PDict kvs -> assoc "labels" kvs = None ->
               get_points_from_pr_labels w repo_name issue_number = Ok 0) /\
  ((forall kvs, data <> PDict kvs) ->
   get_points_from_pr_labels w repo_name issue_number = Raise AttributeError) /\
  (forall kvs labels,
      data = PDict kvs -> assoc "labels" kvs = Some labels ->
      (labels = PNone \/ (exists b, labels = PBool b)
       \/ exists z, labels = PInt z) ->
      get_points_from_pr_labels w repo_name issue_number = Raise TypeError).
Proof.
  intros Hr Hs Hj. unfold get_points_from_pr_labels. rewrite Hr. cbn [bind].
  rewrite Hs, Hj.
  cbn [Z.eqb Pos.eqb negb bind]. unfold label_names.
  split; [|split].
  - intros kvs -> Hnone. cbn [py_get_default]. now rewrite Hnone.
  - intros Hnd. destruct data; try reflexivity. now destruct (Hnd kvs).
  - intros kvs labels -> Hsome Hl. cbn [py_get_default]. rewrite Hsome.
    destruct Hl as [->|[[b ->]|[z ->]]]; reflexivity.
Qed.

Lemma scorer_on_odd_bodies_witness :
  get_points_from_pr_labels
    (mk_world (fun _ => Ok (mk_response 200 (Ok (PDict [("number", PInt 42)]))))
              example_mac (fun _ => true) None)
    "acme/widget" 42
  = Ok 0.
Proof.
  apply (proj1 (scorer_on_odd_bodies
           (mk_world (fun _ => Ok (mk_response 200
                                     (Ok (PDict [("number", PInt 42)]))))
                     example_mac (fun _ => true) None)
           "acme/widget" 42
           (mk_response 200 (Ok (PDict [("number", PInt 42)])))
           (PDict [("number", PInt 42)]) eq_refl eq_refl eq_refl)
           [("number", PInt 42)]); reflexivity.
Defined.

Lemma get_points_labelled w repo_name issue_number response data items names :
  requests_get w (issue_url repo_name issue_number) = Ok response ->
  status_code response = 200 ->
  response_json response = Ok data ->
  py_get_default data "labels" (PList []) = Ok (PList items) ->
  labelled items names ->
  get_points_from_pr_labels w repo_name issue_number
  = Ok (points_of_labels (map py_lower names)).
Proof.
  intros Hr Hs Hj Hget Hl. unfold get_points_from_pr_labels.
  rewrite Hr. cbn [bind]. rewrite Hs, Hj. cbn [Z.eqb Pos.eqb negb bind].
  now rewrite (label_names_labelled _ _ _ Hget Hl).
Qed.

Lemma mem_ext l labels1 labels2 :
  (forall n, In n labels1 <-> In n labels2) ->
  mem l labels1 = mem l labels2.
Proof.
  intros H. unfold mem.
  destruct (existsb (String.eqb l) labels2) eqn:E2.
  - apply existsb_exists in E2 as (x & Hx & Hl).
    apply existsb_exists. exists x. split; [now apply H|assumption].
  - destruct (existsb (String.eqb l) labels1) eqn:E1; [|reflexivity].
    apply existsb_exists in E1 as (x & Hx & Hl).
    assert (E : existsb (String.eqb l) labels2 = true).
    { apply existsb_exists. exists x. split; [now apply H|assumption]. }
    congruence.
Qed.

(** X10: the amount depends on the set of lowered label names only: two
    issues whose labels are the same up to order, repetition and case score
    the same. *)
Theorem score_depends_on_label_set (w1 w2 : world) (repo1 repo2 : string)
  (issue1 issue2 : Z) (response1 response2 : http_response)
  (data1 data2 : pyval) (items1 items2 : list pyval)
  (names1 names2 : list string) :
  requests_get w1 (issue_url repo1 issue1) = Ok response1 ->
  status_code response1 = 200 ->
  response_json response1 = Ok data1 ->
  py_get_default data1 "labels" (PList []) = Ok (PList items1) ->
  labelled items1 names1 ->
  requests_get w2 (issue_url repo2 issue2) = Ok response2 ->
  status_code response2 = 200 ->
  response_json response2 = Ok data2 ->
  py_get_default data2 "labels" (PList []) = Ok (PList items2) ->
  labelled items2 names2 ->
  (forall l, In l (map py_lower names1) <-> In l (map py_lower names2)) ->
  get_points_from_pr_labels w1 repo1 issue1
  = get_points_from_pr_labels w2 repo2 issue2.
Proof.
  intros Hr1 Hs1 Hj1 Hg1 Hl1 Hr2 Hs2 Hj2 Hg2 Hl2 Hsame.
  rewrite (get_points_labelled _ _ _ _ _ _ _ Hr1 Hs1 Hj1 Hg1 Hl1).
  rewrite (get_points_labelled _ _ _ _ _ _ _ Hr2 Hs2 Hj2 Hg2 Hl2).
  unfold points_of_labels.
  now rewrite !(mem_ext _ _ _ Hsame).
Qed.

Lemma score_depends_on_label_set_witness :
  get_points_from_pr_labels example_world "acme/widget" 43
  = get_points_from_pr_labels
      (mk_world (fun _ => Ok (mk_response 200
                   (Ok (PDict [("labels",
                                PList [PDict [("name", PStr "Hard")];
                                       PDict [("name", PStr "EASY")];
                                       PDict [("name", PStr "hard")]])]))))
                example_mac (fun _ => true) None)
      "other/repo" 1.
Proof.
  apply (score_depends_on_label_set example_world _ "acme/widget" "other/repo"
           43 1 (mk_response 200 (Ok example_issue_43))
           (mk_response 200
              (Ok (PDict [("labels",
                           PList [PDict [("name", PStr "Hard")];
                                  PDict [("name", PStr "EASY")];
                                  PDict [("name", PStr "hard")]])])))
           example_issue_43
           (PDict [("labels",
                    PList [PDict [("name", PStr "Hard")];
                           PDict [("name", PStr "EASY")];
                           PDict [("name", PStr "hard")]])])
           [PDict [("name", PStr "easy")]; PDict [("name", PStr "HARD")]]
           [PDict [("name", PStr "Hard")]; PDict [("name", PStr "EASY")];
            PDict [("name", PStr "hard")]]
           ["easy"; "HARD"] ["Hard"; "EASY"; "hard"]);
    [reflexivity|reflexivity|reflexivity|reflexivity|repeat constructor
    |reflexivity|reflexivity|reflexivity|reflexivity|repeat constructor|].
  intros l. simpl. tauto.
Defined.

Lemma map_result_first_failure {A B : Type} (f : A -> result B) good :
  forall bad rest e,
    (forall a, In a good -> exists b, f a = Ok b) ->
    f bad = Raise e ->
    map_result f (good ++ bad :: rest)%list = Raise e.
Proof.
  induction good as [|a good IH]; intros bad rest e Hgood Hbad; simpl.
  - now rewrite Hbad.
  - destruct (Hgood a (or_introl eq_refl)) as [b Hb]. rewrite Hb. cbn [bind].
    rewrite (IH bad rest e); [reflexivity| |assumption].
    intros a' Ha'. apply Hgood. now right.
Qed.

(** X11: one label object without a usable name fails the whole call with
    its exception, whatever the labels before and after it are; a [hard]
    label among them does not help. *)
Theorem bad_label_fails_scoring (w : world) (repo_name : string)
  (issue_number : Z) (response : http_response) (data : pyval)
  (good : list pyval) (names : list string)
  (bad : pyval) (rest : list pyval) (e : exn) :
  requests_get w (issue_url repo_name issue_number) = Ok response ->
  status_code response = 200 ->
  response_json response = Ok data ->
  py_get_default data "labels" (PList [])
  = Ok (PList (good ++ bad :: rest)%list) ->
  labelled good names ->
  (name <- py_getitem bad "name" ;; py_str_lower name) = Raise e ->
  get_points_from_pr_labels w repo_name issue_number = Raise e.
Proof.
  intros Hr Hs Hj Hget Hl Hbad. unfold get_points_from_pr_labels.
  rewrite Hr. cbn [bind]. rewrite Hs, Hj. cbn [Z.eqb Pos.eqb negb bind].
  unfold label_names. rewrite Hget. cbn [bind py_iter].
  rewrite (map_result_first_failure _ good bad rest e); [reflexivity| |exact Hbad].
  clear - Hl.
  induction Hl as [|item n items ns Hitem _ IH]; intros a Ha; [destruct Ha|].
  destruct Ha as [<-|Ha]; [|now apply IH].
  rewrite Hitem. cbn [bind py_str_lower]. eauto.
Qed.

Lemma bad_label_fails_scoring_witness :
  get_points_from_pr_labels
    (mk_world (fun _ => Ok (mk_response 200
                 (Ok (PDict [("labels",
                              PList [PDict [("name", PStr "hard")];
                                     PDict [("id", PInt 7)]])]))))
              example_mac (fun _ => true) None)
    "acme/widget" 42
  = Raise KeyError.
Proof.
  apply (bad_label_fails_scoring _ "acme/widget" 42
           (mk_response 200
              (Ok (PDict [("labels",
                           PList [PDict [("name", PStr "hard")];
                                  PDict [("id", PInt 7)]])])))
           (PDict [("labels",
                    PList [PDict [("name", PStr "hard")]; PDict [("id", PInt 7)]])])
           [PDict [("name", PStr "hard")]] ["hard"]
           (PDict [("id", PInt 7)]) [] KeyError);
    try reflexivity. repeat constructor.
Defined.

(** ** More on the pattern *)

Lemma digit_value_range c : is_digit c = true -> 0 <= digit_value c <= 9.
Proof.
  unfold is_digit, in_range, digit_value. intros H.
  apply andb_true_iff in H as [H1 H2].
  apply N.leb_le in H1. apply N.leb_le in H2. lia.
Qed.

Lemma int_of_digits_nonneg ds :
  forallb is_digit ds = true -> 0 <= int_of_digits ds.
Proof.
  unfold int_of_digits.
  assert (H : forall acc, 0 <= acc -> forallb is_digit ds = true ->
                          0 <= fold_left (fun a c => 10 * a + digit_value c) ds acc).
  { induction ds as [|d ds IH]; intros acc Hacc Hd; cbn [fold_left];
      [assumption|].
    cbn [forallb] in Hd. apply andb_true_iff in Hd as [Hd1 Hd2].
    apply IH; [|assumption]. apply digit_value_range in Hd1. lia. }
  apply H. lia.
Qed.

Lemma search_from_digits text ds :
  search_from text = Some ds -> ds <> [] /\ forallb is_digit ds = true.
Proof.
  intros H. apply search_from_first in H as (pre & post & _ & Hc & _).
  destruct Hc as (kw & ws & rest & _ & _ & _ & Hne & Hd & _). auto.
Qed.

Lemma linked_issue_nonneg pr n :
  linked_issue pr = Ok (Some n) -> 0 <= n.
Proof.
  unfold linked_issue.
  destruct (py_get pr "body") as [body| |]; cbn [bind]; try discriminate.
  destruct (if py_truthy body then body else PStr "") as [| | |text| |];
    try discriminate.
  unfold re_search.
  destruct (search_from (list_ascii_of_string text)) as [ds|] eqn:E;
    [|discriminate].
  unfold py_int.
  destruct (Nat.ltb int_max_str_digits (List.length ds)); cbn [bind];
    [discriminate|].
  intros [= <-]. apply int_of_digits_nonneg.
  now apply search_from_digits in E.
Qed.

(** X12: the issue number of an extracted event is never negative. *)
Theorem issue_number_nonnegative (payload : pyval) (ev : scoring_event) :
  extract payload = Ok (Some ev) -> 0 <= ev_issue_number ev.
Proof.
  unfold extract.
  destruct (py_get payload "action") as [action| |]; cbn [bind];
    try discriminate.
  destruct (py_eq_str action "closed"); [|discriminate].
  destruct (py_getitem payload "pull_request") as [pr| |]; cbn [bind];
    try discriminate.
  destruct (py_getitem pr "merged") as [merged| |]; cbn [bind];
    try discriminate.
  destruct (py_truthy merged); [|discriminate].
  destruct (py_getitem pr "user") as [user| |]; cbn [bind]; try discriminate.
  destruct (py_getitem user "login") as [login| |]; cbn [bind];
    try discriminate.
  destruct (py_getitem pr "number") as [number| |]; cbn [bind];
    try discriminate.
  destruct (py_getitem pr "title") as [title| |]; cbn [bind];
    try discriminate.
  destruct (py_getitem pr "html_url") as [url| |]; cbn [bind];
    try discriminate.
  destruct (linked_issue pr) as [[n|]| |] eqn:E; cbn [bind]; try discriminate.
  intros [= <-]. simpl. now apply linked_issue_nonneg in E.
Qed.

Lemma issue_number_nonnegative_witness : 0 <= 42.
Proof.
  apply (issue_number_nonnegative
           (example_payload (example_pull_request (PStr "Fixes #42") (PBool true)))
           (mk_event (PStr "alice") (PInt 9) (PStr "Add widget")
              (PStr "https://github.com/acme/widget/pull/9") 42)).
  reflexivity.
Defined.

(** X14: a description without a hash sign links no issue. *)
Theorem no_hash_no_issue (pr_body : string) :
  (forall c, In c (list_ascii_of_string pr_body) -> c <> "#"%char) ->
  re_search pr_body = None.
Proof.
  intros Hno. unfold re_search. apply search_from_none.
  intros pre post ds Heq (kw & ws & rest & Hpost & _).
  apply (Hno "#"%char); [|reflexivity].
  rewrite Heq, Hpost. apply in_or_app. right. apply in_or_app. right.
  right. now left.
Qed.

Lemma no_hash_no_issue_witness : re_search "Fixes issue 42" = None.
Proof.
  apply (no_hash_no_issue "Fixes issue 42").
  intros c Hc. simpl in Hc.
  repeat (destruct Hc as [<-|Hc]; [discriminate|]). destruct Hc.
Defined.

(** ** More on the gate and the handler *)

(** X15: the gate lets a request through only with exactly the header made
    of [sha256=] and the hex digest of [request.data] under the stored
    secret; otherwise it aborts with 400 or 403 or, on a header outside
    ASCII, raises [TypeError]. *)
Theorem gate_accepts_only_expected (w : world) (secret : string) (req : request) :
  (verify_signature w secret req = Ok tt <->
   header_signature req = Some (sign w secret (data req))) /\
  (verify_signature w secret req = Ok tt \/
   verify_signature w secret req = Abort 400 \/
   verify_signature w secret req = Abort 403 \/
   verify_signature w secret req = Raise TypeError).
Proof.
  split.
  - split; [|apply verify_signature_sign].
    unfold verify_signature.
    destruct (header_signature req) as [signature|]; [|discriminate].
    destruct (String.eqb signature "" || negb (String.prefix "sha256=" signature));
      [discriminate|].
    unfold compare_digest.
    destruct (is_ascii (sign w secret (data req)) && is_ascii signature);
      cbn [bind]; [|discriminate].
    destruct (String.eqb (sign w secret (data req)) signature) eqn:E;
      cbn [negb]; [|discriminate].
    apply String.eqb_eq in E. now rewrite E.
  - unfold verify_signature.
    destruct (header_signature req) as [signature|]; [|auto].
    destruct (String.eqb signature "" || negb (String.prefix "sha256=" signature));
      [auto|].
    unfold compare_digest.
    destruct (is_ascii (sign w secret (data req)) && is_ascii signature);
      cbn [bind]; [|auto].
    destruct (String.eqb (sign w secret (data req)) signature); cbn [negb]; auto.
Qed.

(** What the handler can do to the database. *)
Lemma webhook_scores w d repo_id req :
  h_db (github_webhook w d repo_id req) = d \/
  exists username points,
    In points [5; 10; 20] /\
    h_db (github_webhook w d repo_id req)
    = set_scores d (update_score (scores d) repo_id username points).
Proof.
  unfold github_webhook.
  destruct (fetch_repo_config (repositories d) repo_id)
    as [[[secret channel_id] repo_name]|]; [|now left].
  destruct (verify_signature w secret req); try (now left).
  unfold process.
  destruct (payload <- json req ;; extract payload) as [[ev|]| |];
    try (now left).
  unfold score_and_award.
  destruct (get_points_from_pr_labels w repo_name (ev_issue_number ev))
    as [points| |] eqn:Ep; try (now left).
  destruct (0 <? points) eqn:Epos; [|now left].
  destruct (ev_username ev) as [| | |username| |]; try (now left).
  right. exists username, points. split; [|reflexivity].
  apply get_points_range in Ep. apply Z.ltb_lt in Epos.
  simpl in Ep |- *. intuition lia.
Qed.

(** X16: only the answer 204 can go with a change: with any other response
    the database is the one before the request and nothing is sent. *)
Theorem webhook_errors_leave_no_trace (w : world) (d : db) (repo_id : Z)
  (req : request) :
  h_response (github_webhook w d repo_id req) <> Ok ("", 204) ->
  h_db (github_webhook w d repo_id req) = d /\
  h_sent (github_webhook w d repo_id req) = [].
Proof.
  unfold github_webhook.
  destruct (fetch_repo_config (repositories d) repo_id)
    as [[[secret channel_id] repo_name]|]; [|auto].
  destruct (verify_signature w secret req); auto.
  unfold process.
  destruct (payload <- json req ;; extract payload) as [[ev|]| |]; auto.
  unfold score_and_award.
  destruct (get_points_from_pr_labels w repo_name (ev_issue_number ev))
    as [points| |]; auto.
  destruct (0 <? points); auto.
  destruct (ev_username ev); auto.
  simpl. intros H. now destruct H.
Qed.

Lemma webhook_errors_leave_no_trace_witness :
  h_db (github_webhook example_world example_scored_db 1
          (mk_request (Some "sha256=00") example_body (Ok (PDict []))))
  = example_scored_db.
Proof.
  apply (webhook_errors_leave_no_trace example_world example_scored_db 1
           (mk_request (Some "sha256=00") example_body (Ok (PDict [])))).
  discriminate.
Defined.

(** X17: a request that passes the gate, carries an event by a login that
    is a string and scores a positive amount is answered 204; the login's
    total in this repository grows by the amount, [repositories] is
    untouched, and one embed goes to the repository's channel if the bot
    knows the channel, none otherwise. *)
Theorem webhook_awards (w : world) (d : db) (repo_id : Z) (secret : string)
  (channel_id : Z) (repo_name : string) (req : request) (ev : scoring_event)
  (username : string) (points : Z) :
  fetch_repo_config (repositories d) repo_id
  = Some (secret, channel_id, repo_name) ->
  verify_signature w secret req = Ok tt ->
  (payload <- json req ;; extract payload) = Ok (Some ev) ->
  ev_username ev = PStr username ->
  get_points_from_pr_labels w repo_name (ev_issue_number ev) = Ok points ->
  0 < points ->
  let after := github_webhook w d repo_id req in
  h_response after = Ok ("", 204) /\
  scores (h_db after) = update_score (scores d) repo_id username points /\
  total (scores (h_db after)) repo_id username
  = total (scores d) repo_id username + points /\
  repositories (h_db after) = repositories d /\
  h_sent after
  = (if bot_get_channel w channel_id
     then [mk_notification channel_id (ev_pr_title ev) (ev_pr_url ev)
                           username points]
     else []).
Proof.
  intros Hf Hv He Hu Hp Hpos after. subst after.
  unfold github_webhook. rewrite Hf, Hv. unfold process. rewrite He.
  unfold score_and_award. rewrite Hp.
  apply Z.ltb_lt in Hpos. rewrite Hpos, Hu. cbn.
  repeat split. apply total_update_score.
Qed.

Lemma webhook_awards_witness :
  total (scores example_scored_db) 1 "alice"
  = total (scores example_db) 1 "alice" + 10.
Proof.
  apply (webhook_awards example_world example_db 1 "0102" 55 "acme/widget"
           (signed_request example_world "0102" example_body
              (example_payload
                 (example_pull_request (PStr "Fixes #42") (PBool true))))
           (mk_event (PStr "alice") (PInt 9) (PStr "Add widget")
              (PStr "https://github.com/acme/widget/pull/9") 42)
           "alice" 10); reflexivity.
Defined.

(** X18: deliveries are not deduplicated. The same request handled twice
    awards twice. *)
Theorem webhook_redelivery_counts_twice (w : world) (d : db) (repo_id : Z)
  (secret : string) (channel_id : Z) (repo_name : string) (req : request)
  (ev : scoring_event) (username : string) (points : Z) :
  fetch_repo_config (repositories d) repo_id
  = Some (secret, channel_id, repo_name) ->
  verify_signature w secret req = Ok tt ->
  (payload <- json req ;; extract payload) = Ok (Some ev) ->
  ev_username ev = PStr username ->
  get_points_from_pr_labels w repo_name (ev_issue_number ev) = Ok points ->
  0 < points ->
  let once := h_db (github_webhook w d repo_id req) in
  let twice := h_db (github_webhook w once repo_id req) in
  total (scores twice) repo_id username
  = total (scores d) repo_id username + 2 * points.
Proof.
  intros Hf Hv He Hu Hp Hpos once twice.
  assert (Hdb : forall d0,
             fetch_repo_config (repositories d0) repo_id
             = Some (secret, channel_id, repo_name) ->
             h_db (github_webhook w d0 repo_id req)
             = set_scores d0 (update_score (scores d0) repo_id username points)).
  { intros d0 Hf0. unfold github_webhook. rewrite Hf0, Hv.
    unfold process. rewrite He. unfold score_and_award. rewrite Hp.
    apply Z.ltb_lt in Hpos. now rewrite Hpos, Hu. }
  subst twice once. rewrite (Hdb d Hf).
  rewrite Hdb by exact Hf. cbn [scores set_scores].
  rewrite !total_update_score. lia.
Qed.

Lemma webhook_redelivery_counts_twice_witness :
  total (scores (h_db (github_webhook example_world example_scored_db 1
           (signed_request example_world "0102" example_body
              (example_payload
                 (example_pull_request (PStr "Fixes #42") (PBool true)))))))
        1 "alice"
  = total (scores example_db) 1 "alice" + 2 * 10.
Proof.
  apply (webhook_redelivery_counts_twice example_world example_db 1 "0102" 55
           "acme/widget"
           (signed_request example_world "0102" example_body
              (example_payload
                 (example_pull_request (PStr "Fixes #42") (PBool true))))
           (mk_event (PStr "alice") (PInt 9) (PStr "Add widget")
              (PStr "https://github.com/acme/widget/pull/9") 42)
           "alice" 10); reflexivity.
Defined.

(** X19: a request to one repository changes nothing for another: every
    lookup under a different repository id reads what it read before. *)
Theorem webhook_tenant_isolation (w : world) (d : db) (repo_id : Z)
  (req : request) (repo_id' : Z) (username : string) :
  repo_id' <> repo_id ->
  select_points (scores (h_db (github_webhook w d repo_id req))) repo_id' username
  = select_points (scores d) repo_id' username.
Proof.
  intros Hne.
  destruct (webhook_scores w d repo_id req) as [->|(u & p & _ & ->)];
    [reflexivity|].
  cbn [scores set_scores].
  apply select_points_update_score_other. congruence.
Qed.

Lemma webhook_tenant_isolation_witness :
  select_points (scores example_scored_db) 2 "alice"
  = select_points (scores example_db) 2 "alice".
Proof.
  apply (webhook_tenant_isolation example_world example_db 1
           (signed_request example_world "0102" example_body
              (example_payload
                 (example_pull_request (PStr "Fixes #42") (PBool true))))
           2 "alice").
  discriminate.
Defined.

(** X20: an embed is sent only with an award: it is the only one of the
    request, it names the amount (5, 10 or 20) that was added to the
    contributor it names, and it goes to the channel registered for the
    repository, which the bot knows. *)
Theorem notification_implies_award (w : world) (d : db) (repo_id : Z)
  (req : request) (n : notification) :
  In n (h_sent (github_webhook w d repo_id req)) ->
  h_sent (github_webhook w d repo_id req) = [n] /\
  In (n_points n) [5; 10; 20] /\
  scores (h_db (github_webhook w d repo_id req))
  = update_score (scores d) repo_id (n_username n) (n_points n) /\
  bot_get_channel w (n_channel_id n) = true /\
  exists secret repo_name,
    fetch_repo_config (repositories d) repo_id
    = Some (secret, n_channel_id n, repo_name).
Proof.
  unfold github_webhook.
  destruct (fetch_repo_config (repositories d) repo_id)
    as [[[secret channel_id] repo_name]|]; [|intros []].
  destruct (verify_signature w secret req); try (intros []).
  unfold process.
  destruct (payload <- json req ;; extract payload) as [[ev|]| |];
    try (intros []).
  unfold score_and_award.
  destruct (get_points_from_pr_labels w repo_name (ev_issue_number ev))
    as [points| |] eqn:Ep; try (intros []).
  destruct (0 <? points) eqn:Epos; [|intros []].
  destruct (ev_username ev) as [| | |username| |]; try (intros []).
  cbn [h_sent h_db].
  destruct (bot_get_channel w channel_id) eqn:Ech; [|intros []].
  intros [<-|[]]. cbn.
  apply get_points_range in Ep. apply Z.ltb_lt in Epos.
  repeat split; eauto. simpl in Ep. intuition lia.
Qed.

Lemma notification_implies_award_witness :
  In 10 [5; 10; 20].
Proof.
  apply (notification_implies_award example_world example_db 1
           (signed_request example_world "0102" example_body
              (example_payload
                 (example_pull_request (PStr "Fixes #42") (PBool true))))
           (mk_notification 55 (PStr "Add widget")
              (PStr "https://github.com/acme/widget/pull/9") "alice" 10)).
  left. reflexivity.
Defined.

(** ** More on registration *)

Section UpsertMore.

Variables (fresh_id guild_id : Z) (repo_name webhook_secret : string)
          (channel_id admin_user_id : Z).

Local Abbreviation upsert rows :=
  (upsert_repository rows fresh_id guild_id repo_name webhook_secret
                     channel_id admin_user_id).

Local Abbreviation new_row id :=
  (mk_repo id guild_id repo_name webhook_secret channel_id admin_user_id).

Lemma upsert_other_guild rows guild_id' :
  guild_id' <> guild_id ->
  find_by_guild (fst (upsert rows)) guild_id' = find_by_guild rows guild_id'.
Proof.
  intros Hne. induction rows as [|r rows IH]; simpl.
  - apply Z.eqb_neq in Hne. rewrite Z.eqb_sym. now rewrite Hne.
  - destruct (Z.eqb_spec (r_guild_id r) guild_id) as [E|E]; simpl.
    + rewrite E. apply Z.eqb_neq in Hne. rewrite Z.eqb_sym in Hne.
      rewrite Hne. reflexivity.
    + destruct (upsert_repository rows _ _ _ _ _ _) as [rest' id].
      simpl in *. now rewrite IH.
Qed.

Lemma upsert_existing rows r :
  find_by_guild rows guild_id = Some r ->
  map id_and_guild (fst (upsert rows)) = map id_and_guild rows /\
  List.length (fst (upsert rows)) = List.length rows /\
  snd (upsert rows) = r_id r.
Proof.
  induction rows as [|r0 rows IH]; simpl; [discriminate|].
  destruct (Z.eqb_spec (r_guild_id r0) guild_id) as [E|E]; simpl.
  - intros [= ->]. unfold id_and_guild at 1 3. simpl. now rewrite E.
  - intros H. destruct (IH H) as (H1 & H2 & H3).
    destruct (upsert_repository rows _ _ _ _ _ _) as [rest' id].
    simpl in *. now rewrite H1, H2.
Qed.

Lemma upsert_new rows :
  find_by_guild rows guild_id = None ->
  fst (upsert rows) = (rows ++ [new_row fresh_id])%list /\
  snd (upsert rows) = fresh_id.
Proof.
  induction rows as [|r0 rows IH]; simpl; [auto|].
  destruct (r_guild_id r0 =? guild_id); [discriminate|].
  intros H. destruct (IH H) as [H1 H2].
  destruct (upsert_repository rows _ _ _ _ _ _) as [rest' id].
  simpl in *. now rewrite H1.
Qed.

Lemma find_by_guild_none_iff rows :
  find_by_guild rows guild_id = None <-> ~ In guild_id (map r_guild_id rows).
Proof.
  induction rows as [|r rows IH]; simpl; [tauto|].
  destruct (Z.eqb_spec (r_guild_id r) guild_id) as [E|E].
  - split; [discriminate|]. intros H. exfalso. apply H. now left.
  - rewrite IH. tauto.
Qed.

Lemma upsert_guilds_nodup rows :
  NoDup (map r_guild_id rows) -> NoDup (map r_guild_id (fst (upsert rows))).
Proof.
  intros Hnd.
  destruct (find_by_guild rows guild_id) as [r|] eqn:E.
  - destruct (upsert_existing rows r E) as [Hmap _].
    assert (Hg : forall l, map r_guild_id l = map snd (map id_and_guild l))
      by (intros l; rewrite map_map; reflexivity).
    now rewrite Hg, Hmap, <- Hg.
  - destruct (upsert_new rows E) as [-> _]. rewrite map_app. simpl.
    apply NoDup_app; [assumption|repeat constructor; intros []|].
    intros g Hg [<-|[]]. apply find_by_guild_none_iff in E. now apply E.
Qed.

End UpsertMore.

Lemma guild_scores_by_pairs d1 d2 guild_id :
  scores d1 = scores d2 ->
  map id_and_guild (repositories d1) = map id_and_guild (repositories d2) ->
  guild_scores d1 guild_id = guild_scores d2 guild_id.
Proof.
  intros Hs Hr. unfold guild_scores. rewrite Hs.
  apply flat_map_ext. intros s.
  assert (H : forall rows,
             flat_map (fun r =>
               if (s_repo_id s =? r_id r) && (r_guild_id r =? guild_id)
               then [(s_github_username s, s_points s)] else []) rows
             = flat_map (fun p =>
                 if (s_repo_id s =? fst p) && (snd p =? guild_id)
                 then [(s_github_username s, s_points s)] else [])
                 (map id_and_guild rows)).
  { induction rows as [|r rows IH]; [reflexivity|]. simpl. now rewrite IH. }
  now rewrite !H, Hr.
Qed.

Lemma guild_scores_new_row d rows' new guild_id :
  rows' = (repositories d ++ [new])%list ->
  r_guild_id new <> guild_id ->
  guild_scores (mk_db rows' (repo_seq d + 1) (scores d)) guild_id
  = guild_scores d guild_id.
Proof.
  intros -> Hne. unfold guild_scores. cbn [scores repositories].
  apply flat_map_ext. intros s. rewrite flat_map_app. simpl.
  apply Z.eqb_neq in Hne. rewrite Hne, andb_false_r. simpl.
  now rewrite app_nil_r.
Qed.

(** X21: registering one guild leaves every other guild's row as it is
    (id, repository, secret, channel), and touches no score. *)
Theorem register_other_guilds_untouched (w : world) (d : db)
  (guild_id admin_user_id : Z) (repo_name : string) (channel_id : Z)
  (random_bytes : list byte) (guild_id' : Z) :
  guild_id' <> guild_id ->
  let d' :=
    fst (register w d guild_id admin_user_id repo_name channel_id random_bytes) in
  find_by_guild (repositories d') guild_id'
  = find_by_guild (repositories d) guild_id' /\
  scores d' = scores d.
Proof.
  intros Hne d'. subst d'. unfold register.
  assert (H := upsert_other_guild (repo_seq d) guild_id repo_name
                 (token_hex random_bytes) channel_id admin_user_id
                 (repositories d) guild_id' Hne).
  destruct (upsert_repository _ _ _ _ _ _ _) as [rows id]. simpl in *.
  split; [exact H|reflexivity].
Qed.

Lemma register_other_guilds_untouched_witness :
  find_by_guild
    (repositories
       (fst (register example_world example_db 2002 8 "acme/gadget" 66
                      [x0a; x0b]))) 1001
  = find_by_guild (repositories example_db) 1001.
Proof.
  apply (register_other_guilds_untouched example_world example_db 2002 8
           "acme/gadget" 66 [x0a; x0b] 1001).
  discriminate.
Defined.

(** X22: registration keeps the leaderboards. That of every other guild is
    unchanged, and so is that of a guild that registers again: its id is
    kept and its scores stay, also when it names another repository. *)
Theorem register_keeps_leaderboards (w : world) (d : db)
  (guild_id admin_user_id : Z) (repo_name : string) (channel_id : Z)
  (random_bytes : list byte) :
  let d' :=
    fst (register w d guild_id admin_user_id repo_name channel_id random_bytes) in
  (forall guild_id', guild_id' <> guild_id ->
                     leaderboard d' guild_id' = leaderboard d guild_id') /\
  (forall r, find_by_guild (repositories d) guild_id = Some r ->
             leaderboard d' guild_id = leaderboard d guild_id).
Proof.
  intros d'. subst d'. unfold register.
  assert (Hex := upsert_existing (repo_seq d) guild_id repo_name
                   (token_hex random_bytes) channel_id admin_user_id
                   (repositories d)).
  assert (Hnew := upsert_new (repo_seq d) guild_id repo_name
                    (token_hex random_bytes) channel_id admin_user_id
                    (repositories d)).
  destruct (upsert_repository _ _ _ _ _ _ _) as [rows id].
  cbn [fst snd] in *. unfold leaderboard.
  split.
  - intros guild_id' Hne.
    destruct (find_by_guild (repositories d) guild_id) as [r|] eqn:E.
    + destruct (Hex r eq_refl) as [Hmap _].
      rewrite (guild_scores_by_pairs (mk_db rows (repo_seq d + 1) (scores d))
                 d guild_id' eq_refl Hmap). reflexivity.
    + destruct (Hnew eq_refl) as [Hrows _].
      rewrite (guild_scores_new_row d rows _ guild_id' Hrows);
        [reflexivity|]. cbn [r_guild_id]. congruence.
  - intros r Hr. destruct (Hex r Hr) as [Hmap _].
    rewrite (guild_scores_by_pairs (mk_db rows (repo_seq d + 1) (scores d))
               d guild_id eq_refl Hmap). reflexivity.
Qed.

Lemma register_keeps_leaderboards_witness :
  leaderboard
    (fst (register example_world example_scored_db 1001 7 "acme/gadget" 56
                   [x03; x04])) 1001
  = leaderboard example_scored_db 1001.
Proof.
  apply (proj2 (register_keeps_leaderboards example_world example_scored_db
                  1001 7 "acme/gadget" 56 [x03; x04])
           (mk_repo 1 1001 "acme/widget" "0102" 55 7)).
  reflexivity.
Defined.

(** X23: the upsert keeps one row per guild. A guild that has a row keeps
    its id and the table its size; a new guild gets the next value of the
    sequence in a row added at the end. *)
Theorem register_one_row_per_guild (w : world) (d : db)
  (guild_id admin_user_id : Z) (repo_name : string) (channel_id : Z)
  (random_bytes : list byte) :
  let result :=
    register w d guild_id admin_user_id repo_name channel_id random_bytes in
  let rows' := repositories (fst result) in
  (NoDup (map r_guild_id (repositories d)) -> NoDup (map r_guild_id rows')) /\
  (forall r, find_by_guild (repositories d) guild_id = Some r ->
             reg_repo_id (snd result) = r_id r /\
             List.length rows' = List.length (repositories d)) /\
  (find_by_guild (repositories d) guild_id = None ->
   reg_repo_id (snd result) = repo_seq d /\
   rows' = (repositories d
            ++ [mk_repo (repo_seq d) guild_id repo_name
                        (token_hex random_bytes) channel_id admin_user_id])%list).
Proof.
  intros result rows'. subst rows' result. unfold register.
  assert (Hex := upsert_existing (repo_seq d) guild_id repo_name
                   (token_hex random_bytes) channel_id admin_user_id
                   (repositories d)).
  assert (Hnew := upsert_new (repo_seq d) guild_id repo_name
                    (token_hex random_bytes) channel_id admin_user_id
                    (repositories d)).
  assert (Hnd := upsert_guilds_nodup (repo_seq d) guild_id repo_name
                   (token_hex random_bytes) channel_id admin_user_id
                   (repositories d)).
  destruct (upsert_repository _ _ _ _ _ _ _) as [rows id]. simpl in *.
  split; [exact Hnd|]. split.
  - intros r Hr. destruct (Hex r Hr) as (_ & Hlen & Hid). auto.
  - intros Hnone. destruct (Hnew Hnone) as [Hrows Hid]. auto.
Qed.

Lemma register_one_row_per_guild_witness :
  NoDup (map r_guild_id
           (repositories
              (fst (register example_world example_db 1001 7 "acme/gadget" 56
                             [x03; x04])))).
Proof.
  apply (register_one_row_per_guild example_world example_db 1001 7
           "acme/gadget" 56 [x03; x04]).
  repeat constructor. intros [].
Defined.

(** X24: what registration hands out works. With distinct ids in the
    table, the handler finds under the id of the payload URL the secret,
    channel and repository just registered, and lets a request signed with
    the secret through the gate. *)
Theorem registration_round_trip (w : world) (d : db)
  (guild_id admin_user_id : Z) (repo_name : string) (channel_id : Z)
  (random_bytes : list byte) :
  repo_ids_fresh d ->
  let result :=
    register w d guild_id admin_user_id repo_name channel_id random_bytes in
  let d' := fst result in
  let id := reg_repo_id (snd result) in
  let secret := reg_webhook_secret (snd result) in
  reg_payload_url (snd result)
  = "https://" ++ base_url w ++ "/github-webhook/" ++ str_of_Z id /\
  fetch_repo_config (repositories d') id = Some (secret, channel_id, repo_name) /\
  forall w' req,
    header_signature req = Some (sign w' secret (data req)) ->
    github_webhook w' d' id req = process w' d' id channel_id repo_name req.
Proof.
  intros [Hnd Hlt] result d' id secret. subst secret id d' result.
  unfold register.
  assert (Hfetch := upsert_fetch (repo_seq d) guild_id repo_name
                      (token_hex random_bytes) channel_id admin_user_id
                      (repositories d) Hnd Hlt).
  destruct (upsert_repository _ _ _ _ _ _ _) as [rows id]. simpl in *.
  split; [reflexivity|]. split; [exact Hfetch|].
  intros w' req Hh. unfold github_webhook. cbn [repositories].
  rewrite Hfetch. now rewrite (verify_signature_sign w' _ req Hh).
Qed.

Lemma registration_round_trip_witness :
  fetch_repo_config (repositories example_db) 1
  = Some ("0102", 55, "acme/widget").
Proof.
  apply (registration_round_trip example_world init_db 1001 7 "acme/widget" 55
           [x01; x02]).
  split; constructor.
Defined.

(** ** More on reachable states *)

Lemma exec_repositories w o d :
  NoDup (map r_guild_id (repositories d)) ->
  NoDup (map r_guild_id (repositories (exec w o d))).
Proof.
  intros Hnd.
  destruct o as [repo_id req|guild_id admin repo_name channel random|guild_id];
    simpl.
  - now rewrite (proj1 (webhook_keeps_repositories w d repo_id req)).
  - unfold register.
    assert (H := upsert_guilds_nodup (repo_seq d) guild_id repo_name
                   (token_hex random) channel admin (repositories d) Hnd).
    destruct (upsert_repository _ _ _ _ _ _ _) as [rows id]. exact H.
  - exact Hnd.
Qed.

(** X25: in every reachable state each guild has at most one row, and the
    ids of the rows are distinct and below the sequence. *)
Theorem reachable_one_row_per_guild (d : db) :
  reachable d ->
  NoDup (map r_guild_id (repositories d)) /\
  NoDup (map r_id (repositories d)) /\
  Forall (fun r => r_id r < repo_seq d) (repositories d).
Proof.
  intros Hr. split; [|exact (reachable_repo_ids_fresh d Hr)].
  induction Hr as [|w o d _ IH]; [constructor|].
  now apply exec_repositories.
Qed.

Lemma reachable_one_row_per_guild_witness :
  NoDup (map r_guild_id (repositories example_scored_db)).
Proof.
  apply (reachable_one_row_per_guild example_scored_db).
  apply (reachable_step example_world
           (OpWebhook 1
              (signed_request example_world "0102" example_body
                 (example_payload
                    (example_pull_request (PStr "Fixes #42") (PBool true)))))
           example_db).
  apply (reachable_step example_world
           (OpRegister 1001 7 "acme/widget" 55 [x01; x02]) init_db).
  apply reachable_init.
Defined.

Lemma fetch_repo_config_in rows repo_id config :
  fetch_repo_config rows repo_id = Some config -> In repo_id (map r_id rows).
Proof.
  induction rows as [|r rows IH]; simpl; [discriminate|].
  destruct (Z.eqb_spec (r_id r) repo_id) as [E|E]; [now left|].
  intros H. right. now apply IH.
Qed.

Lemma webhook_scores_registered w d repo_id req :
  scores (h_db (github_webhook w d repo_id req)) = scores d \/
  In repo_id (map r_id (repositories d)) /\
  exists username points,
    In points [5; 10; 20] /\
    scores (h_db (github_webhook w d repo_id req))
    = update_score (scores d) repo_id username points.
Proof.
  destruct (fetch_repo_config (repositories d) repo_id) as [config|] eqn:Ef.
  - destruct (webhook_scores w d repo_id req) as [->|(u & p & Hp & ->)];
      [now left|right].
    split; [now apply (fetch_repo_config_in _ _ config)|].
    exists u, p. split; [assumption|reflexivity].
  - left. unfold github_webhook. now rewrite Ef.
Qed.

Lemma update_score_forall (P : score_row -> Prop) rows repo_id username p :
  Forall P rows ->
  (forall q, P (mk_score repo_id username q) ->
             P (mk_score repo_id username (q + p))) ->
  (forall s, P s -> score_key repo_id username s = true ->
             P (mk_score repo_id username (s_points s))) ->
  P (mk_score repo_id username p) ->
  (forall s q, P s -> P (mk_score repo_id username q) ->
               score_key repo_id username s = true ->
               P (mk_score (s_repo_id s) (s_github_username s) q)) ->
  Forall P (update_score rows repo_id username p).
Proof.
  intros Hall Hadd Hkey Hnew Hset. unfold update_score.
  destruct (select_points rows repo_id username) as [q|] eqn:E.
  - assert (Hq : P (mk_score repo_id username q)).
    { clear Hadd Hnew Hset. induction rows as [|r rows IH]; [discriminate|].
      simpl in E. inversion Hall as [|? ? Hr Hrest]; subst.
      destruct (score_key repo_id username r) eqn:K.
      - injection E as <-. now apply Hkey.
      - now apply IH. }
    unfold sql_update_points. rewrite Forall_map. rewrite Forall_forall in *.
    intros s Hs. destruct (score_key repo_id username s) eqn:K; [|auto].
    apply Hset; auto.
  - unfold sql_insert_score. apply Forall_app. split; [assumption|].
    now repeat constructor.
Qed.

(** X26: in every reachable state each score row belongs to a registered
    repository. *)
Theorem reachable_scores_reference_repositories (d : db) :
  reachable d ->
  Forall (fun s => In (s_repo_id s) (map r_id (repositories d))) (scores d).
Proof.
  induction 1 as [|w o d _ IH]; [constructor|].
  destruct o as [repo_id req|guild_id admin repo_name channel random|guild_id];
    simpl.
  - rewrite (proj1 (webhook_keeps_repositories w d repo_id req)).
    destruct (webhook_scores_registered w d repo_id req)
      as [->|(Hin & u & p & _ & ->)]; [exact IH|].
    apply update_score_forall; auto.
  - unfold register.
    assert (Hids := upsert_ids (repo_seq d) guild_id repo_name
                      (token_hex random) channel admin (repositories d)).
    destruct (upsert_repository _ _ _ _ _ _ _) as [rows id]. simpl in *.
    eapply Forall_impl; [|exact IH]. cbv beta. intros s Hs.
    destruct Hids as [[-> _]|[-> _]]; [assumption|].
    apply in_or_app. now left.
  - exact IH.
Qed.

Lemma reachable_scores_reference_repositories_witness :
  Forall (fun s => In (s_repo_id s) (map r_id (repositories example_scored_db)))
         (scores example_scored_db).
Proof.
  apply (reachable_scores_reference_repositories example_scored_db).
  apply (reachable_step example_world
           (OpWebhook 1
              (signed_request example_world "0102" example_body
                 (example_payload
                    (example_pull_request (PStr "Fixes #42") (PBool true)))))
           example_db).
  apply (reachable_step example_world
           (OpRegister 1001 7 "acme/widget" 55 [x01; x02]) init_db).
  apply reachable_init.
Defined.

(** X27: in every reachable state every stored total is a positive
    multiple of 5: a row appears with its first award, and awards are 5, 10
    or 20. *)
Theorem reachable_points_multiples_of_five (d : db) :
  reachable d ->
  Forall (fun s => 5 <= s_points s /\ (5 | s_points s)) (scores d).
Proof.
  induction 1 as [|w o d _ IH]; [constructor|].
  destruct (exec_scores w o d) as [->|(r & u & p & Hp & ->)]; [exact IH|].
  assert (Hp' : 5 <= p /\ (5 | p)).
  { simpl in Hp. destruct Hp as [<-|[<-|[<-|[]]]]; split; try lia.
    - now exists 1.
    - now exists 2.
    - now exists 4. }
  destruct Hp' as [Hge Hdiv].
  apply update_score_forall; simpl; auto.
  intros q [Hq1 Hq2]. split; [lia|now apply Z.divide_add_r].
Qed.

Lemma reachable_points_multiples_of_five_witness :
  Forall (fun s => 5 <= s_points s /\ (5 | s_points s))
         (scores example_scored_db).
Proof.
  apply (reachable_points_multiples_of_five example_scored_db).
  apply (reachable_step example_world
           (OpWebhook 1
              (signed_request example_world "0102" example_body
                 (example_payload
                    (example_pull_request (PStr "Fixes #42") (PBool true)))))
           example_db).
  apply (reachable_step example_world
           (OpRegister 1001 7 "acme/widget" 55 [x01; x02]) init_db).
  apply reachable_init.
Defined.

(** ** Interleaved calls on an existing row *)

Section Interleaved.

Variables (repo_id : Z) (username : string) (t0 : Z).

Local Abbreviation within hi := (call_within repo_id username t0 hi).

Local Abbreviation stored rows hi :=
  (exists t, select_points rows repo_id username = Some t /\ t0 <= t <= hi).

Lemma call_within_weaken hi hi' c : hi <= hi' -> within hi c -> within hi' c.
Proof.
  intros Hle (Hr & Hu & Hp & Hf). repeat split; auto.
  intros f Hpc. destruct (Hf f Hpc) as (q & -> & Hq). exists q. split; [auto|lia].
Qed.

Lemma step_call_within rows c hi :
  stored rows hi -> within hi c ->
  let (rows', c') := step_call rows c in
  exists delta,
    0 <= delta /\
    credited [c'] = credited [c] + delta /\
    stored rows' (hi + delta) /\ within (hi + delta) c'.
Proof.
  intros (t & Ht & Hbt) (Hr & Hu & Hp & Hf). unfold step_call.
  destruct (c_pc c) as [|fetched|] eqn:Hpc.
  - exists 0. split; [lia|]. split; [simpl; rewrite Hpc; lia|].
    split; [exists t; split; [assumption|lia]|].
    repeat split; auto.
    intros f [= <-]. rewrite Hr, Hu, Ht. exists t. split; [reflexivity|lia].
  - destruct (Hf fetched eq_refl) as (q & -> & Hq).
    exists (c_points_to_add c). split; [assumption|].
    split; [simpl; rewrite Hpc; lia|]. split.
    + exists (q + c_points_to_add c). rewrite Hr, Hu.
      rewrite (select_points_update_same _ _ _ _ _ Ht). split; [reflexivity|lia].
    + repeat split; auto. intros f [=].
  - exists 0. split; [lia|]. split; [lia|].
    split; [exists t; split; [assumption|lia]|].
    repeat split; auto.
    intros f Hpc'. rewrite Hpc in Hpc'. discriminate.
Qed.

Lemma credited_cons c cs : credited (c :: cs) = credited [c] + credited cs.
Proof. simpl. destruct (c_pc c); lia. Qed.

Lemma step_nth_within i : forall calls rows hi,
  stored rows hi -> Forall (within hi) calls ->
  let (rows', calls') := step_nth i rows calls in
  exists delta,
    0 <= delta /\
    credited calls' = credited calls + delta /\
    stored rows' (hi + delta) /\ Forall (within (hi + delta)) calls'.
Proof.
  induction i as [|j IH]; intros [|c cs] rows hi Hst Hall; cbn [step_nth].
  - exists 0. rewrite !Z.add_0_r. repeat split; auto; lia.
  - inversion Hall as [|? ? Hc Hcs]; subst.
    assert (H := step_call_within rows c hi Hst Hc).
    destruct (step_call rows c) as [rows' c'].
    destruct H as (delta & Hd & Hcr & Hst' & Hc').
    exists delta. split; [assumption|]. split.
    + rewrite (credited_cons c'), (credited_cons c). lia.
    + split; [assumption|]. constructor; [assumption|].
      eapply Forall_impl; [|exact Hcs].
      intros a. apply call_within_weaken. lia.
  - exists 0. rewrite !Z.add_0_r. repeat split; auto; lia.
  - inversion Hall as [|? ? Hc Hcs]; subst.
    assert (H := IH cs rows hi Hst Hcs).
    destruct (step_nth j rows cs) as [rows' cs'].
    destruct H as (delta & Hd & Hcr & Hst' & Hcs').
    exists delta. split; [assumption|]. split.
    + rewrite (credited_cons c cs'), (credited_cons c cs). lia.
    + split; [assumption|]. constructor; [|assumption].
      apply (call_within_weaken hi); [lia|assumption].
Qed.

Lemma run_within schedule : forall calls rows,
  stored rows (t0 + credited calls) ->
  Forall (within (t0 + credited calls)) calls ->
  let (rows', calls') := run schedule rows calls in
  stored rows' (t0 + credited calls') /\
  Forall (within (t0 + credited calls')) calls'.
Proof.
  induction schedule as [|i later IH]; intros calls rows Hst Hall; simpl.
  - auto.
  - assert (H := step_nth_within i calls rows _ Hst Hall).
    destruct (step_nth i rows calls) as [rows1 calls1].
    destruct H as (delta & Hd & Hcr & Hst1 & Hall1).
    apply IH; rewrite Hcr; rewrite <- Z.add_assoc in *; assumption.
Qed.

End Interleaved.

Lemma credited_le_sum calls :
  Forall (fun c => 0 <= c_points_to_add c) calls ->
  credited calls <= sum (map c_points_to_add calls).
Proof.
  induction 1 as [|c cs Hc _ IH]; simpl; [lia|].
  destruct (c_pc c); lia.
Qed.

Lemma step_nth_points i : forall rows calls,
  map c_points_to_add (snd (step_nth i rows calls)) = map c_points_to_add calls.
Proof.
  induction i as [|j IH]; intros rows [|c cs]; simpl; try reflexivity.
  - unfold step_call. destruct (c_pc c) as [|[q|]|]; reflexivity.
  - specialize (IH rows cs). destruct (step_nth j rows cs). simpl in *.
    now rewrite IH.
Qed.

Lemma run_points schedule : forall rows calls,
  map c_points_to_add (snd (run schedule rows calls)) = map c_points_to_add calls.
Proof.
  induction schedule as [|i later IH]; intros rows calls; simpl; [reflexivity|].
  assert (H := step_nth_points i rows calls).
  destruct (step_nth i rows calls) as [rows1 calls1]. simpl in H.
  now rewrite IH.
Qed.

(** X28: whatever the schedule, interleaved calls for a contributor who has
    a row, with amounts that are not negative, can lose awards but never
    invent or undo any: at every point the stored total lies between the
    total at the start and that total plus the sum of all amounts. *)
Theorem interleaved_total_bounded (rows : list score_row) (repo_id : Z)
  (username : string) (ps : list Z) (schedule : list nat) (t0 : Z) :
  select_points rows repo_id username = Some t0 ->
  Forall (fun p => 0 <= p) ps ->
  let final := run schedule rows (awards repo_id username ps) in
  t0 <= total (fst final) repo_id username <= t0 + sum ps.
Proof.
  intros Hsel Hps final.
  assert (Hcr0 : credited (awards repo_id username ps) = 0).
  { induction ps; simpl; auto. apply IHps. now inversion Hps. }
  assert (Hall : Forall (call_within repo_id username t0
                           (t0 + credited (awards repo_id username ps)))
                        (awards repo_id username ps)).
  { rewrite Hcr0. clear Hcr0. induction Hps as [|p ps Hp _ IH]; simpl;
      constructor; auto.
    repeat split; auto. intros f [=]. }
  assert (Hst : exists t, select_points rows repo_id username = Some t /\
                          t0 <= t <= t0 + credited (awards repo_id username ps)).
  { exists t0. rewrite Hcr0. split; [assumption|lia]. }
  assert (H := run_within repo_id username t0 schedule _ rows Hst Hall).
  assert (Hpts := run_points schedule rows (awards repo_id username ps)).
  fold final in H, Hpts. destruct final as [rows' calls'].
  destruct H as [(t & Ht & Hbt) Hall']. simpl in *.
  unfold total. rewrite Ht.
  assert (Hle : credited calls' <= sum ps).
  { assert (Hmap : map c_points_to_add (awards repo_id username ps) = ps).
    { unfold awards. rewrite map_map. simpl. apply map_id. }
    rewrite Hmap in Hpts. rewrite <- Hpts.
    apply credited_le_sum.
    eapply Forall_impl; [|exact Hall']. intros c (_ & _ & Hp & _). exact Hp. }
  lia.
Qed.

Lemma interleaved_total_bounded_witness :
  5 <= total (fst (run [0; 1; 1; 0]%nat [mk_score 1 "alice" 5]
                       (awards 1 "alice" [5; 20]))) 1 "alice"
  <= 5 + sum [5; 20].
Proof.
  apply (interleaved_total_bounded [mk_score 1 "alice" 5] 1 "alice" [5; 20]
           [0; 1; 1; 0]%nat 5).
  - reflexivity.
  - repeat constructor; lia.
Defined.

(** ** From the handler to the leaderboard *)

Lemma select_points_row rows repo_id username p :
  select_points rows repo_id username = Some p ->
  In (mk_score repo_id username p) rows.
Proof.
  induction rows as [|s rows IH]; simpl; [discriminate|].
  destruct (score_key repo_id username s) eqn:K.
  - intros [= <-]. left. unfold score_key in K.
    apply andb_true_iff in K as [K1 K2].
    apply Z.eqb_eq in K1. apply String.eqb_eq in K2.
    destruct s. simpl in *. now subst.
  - intros H. right. now apply IH.
Qed.

(** X29: an award is visible. After a request that awards, the contributor
    is among the rows joined for the guild of the repository with the new
    total, and on its leaderboard when at most ten rows are joined. *)
Theorem award_shows_on_leaderboard (w : world) (d : db) (repo_id : Z)
  (secret : string) (channel_id : Z) (repo_name : string) (req : request)
  (ev : scoring_event) (username : string) (points : Z) (r : repo_row) :
  fetch_repo_config (repositories d) repo_id
  = Some (secret, channel_id, repo_name) ->
  verify_signature w secret req = Ok tt ->
  (payload <- json req ;; extract payload) = Ok (Some ev) ->
  ev_username ev = PStr username ->
  get_points_from_pr_labels w repo_name (ev_issue_number ev) = Ok points ->
  0 < points ->
  In r (repositories d) -> r_id r = repo_id ->
  let after := h_db (github_webhook w d repo_id req) in
  let entry := (username, total (scores d) repo_id username + points) in
  In entry (guild_scores after (r_guild_id r)) /\
  ((List.length (guild_scores after (r_guild_id r)) <= 10)%nat ->
   In entry (leaderboard after (r_guild_id r))).
Proof.
  intros Hf Hv He Hu Hp Hpos Hr Hid after entry.
  assert (Hdb : after
                = set_scores d (update_score (scores d) repo_id username points)).
  { subst after. unfold github_webhook. rewrite Hf, Hv.
    unfold process. rewrite He. unfold score_and_award. rewrite Hp.
    apply Z.ltb_lt in Hpos. now rewrite Hpos, Hu. }
  assert (Hin : In entry (guild_scores after (r_guild_id r))).
  { subst entry. apply guild_scores_in.
    exists (mk_score repo_id username (total (scores d) repo_id username + points)), r.
    rewrite Hdb. cbn [scores repositories set_scores s_repo_id
                      s_github_username s_points].
    repeat split; auto.
    apply select_points_row, select_points_update_score_same. }
  split; [exact Hin|].
  intros Hlen.
  apply (Permutation_in _
           (Permutation_sym (leaderboard_all_shown after (r_guild_id r) Hlen))).
  exact Hin.
Qed.

Lemma award_shows_on_leaderboard_witness :
  In ("alice", total (scores example_db) 1 "alice" + 10)
     (guild_scores example_scored_db 1001).
Proof.
  apply (fun h1 h2 h3 h4 h5 h6 h7 h8 => proj1
           (award_shows_on_leaderboard example_world example_db 1 "0102" 55
           "acme/widget"
           (signed_request example_world "0102" example_body
              (example_payload
                 (example_pull_request (PStr "Fixes #42") (PBool true))))
           (mk_event (PStr "alice") (PInt 9) (PStr "Add widget")
              (PStr "https://github.com/acme/widget/pull/9") 42)
           "alice" 10 (mk_repo 1 1001 "acme/widget" "0102" 55 7)
           h1 h2 h3 h4 h5 h6 h7 h8));
    try reflexivity; try (left; reflexivity).
Defined.
